(** * Gif2Ascii: the frame-to-glyph pipeline of [src/gif2Asci.py]

    A shallow embedding of the tile sampler ([GetAverageBrightness]), the
    grid geometry resolver ([GetFrameData]), the frame renderer
    ([ProcessFrame]) and the playback driver ([ProcessGif], [PrintFrame],
    [SaveFrame]), followed by the properties the specification states
    about them.

    - Python's [int] is [Z].  Python's [float] is IEEE-754 binary64: it is
      the standard library's [spec_float] with the operations of
      [SpecFloat] at precision 53 and maximal exponent 1024, so every
      quotient, product and rounding below is the one CPython computes,
      exceptions included.
    - A [str] is the list of its code points.
    - A computation ends in a value, an uncaught exception or [exit(code)].
      [print], [sys.stdout.write] and file writes act on a [world] that is
      passed along.
    - The image library is outside the program: an opened image is its
      size and the list of its frames in mode ['L'], a frame is a function
      from pixel coordinates to intensities (outside the image a cropped
      pixel is 0).
    - [time()] and [sleep()] pace continuous mode; they change neither the
      terminal nor the files and are left out. *)

From Stdlib Require Import ZArith List Bool Lia.
From Stdlib Require Import String Ascii DecimalString DecimalZ DecimalPos.
From Stdlib Require Import SpecFloat.
Import ListNotations.

Open Scope Z_scope.

(** ** Outcomes of a Python computation *)

Inductive exn : Type :=
| ZeroDivisionError
| OverflowError
| ValueError
| IndexError.

(** A computation returns, raises an uncaught exception, or leaves the
    process through [exit(code)]. *)
Inductive outcome (A : Type) : Type :=
| Ok (a : A)
| Raise (e : exn)
| Exit (code : Z).

Arguments Ok {A} a.
Arguments Raise {A} e.
Arguments Exit {A} code.

Definition bind {A B : Type} (c : outcome A) (k : A -> outcome B) : outcome B :=
  match c with
  | Ok a => k a
  | Raise e => Raise e
  | Exit n => Exit n
  end.

Declare Scope py_scope.
Delimit Scope py_scope with py.
Notation "x <- c ;; k" := (bind c (fun x => k))
  (at level 61, c at next level, right associativity) : py_scope.
Notation "' p <- c ;; k" := (bind c (fun x => let 'p := x in k))
  (at level 61, p pattern, c at next level, right associativity) : py_scope.
Open Scope py_scope.

(** [for x in xs: ...] collecting one result per iteration; the first
    exception ends the loop. *)
Fixpoint for_each {A B : Type} (f : A -> outcome B) (xs : list A) : outcome (list B) :=
  match xs with
  | [] => Ok []
  | x :: rest =>
      b <- f x ;;
      bs <- for_each f rest ;;
      Ok (b :: bs)
  end.

(** [range(0, n)] *)
Definition range (n : Z) : list Z := map Z.of_nat (seq 0 (Z.to_nat n)).

(** ** Python floats *)

Module PyFloat.

Definition prec : Z := 53.
Definition emax : Z := 1024.

Definition float : Type := spec_float.

Definition pos_zero : float := S754_zero false.

(** 1.0 *)
Definition one : float := S754_finite false 4503599627370496 (-52).

Definition is_zero (x : float) : bool :=
  match x with S754_zero _ => true | _ => false end.

(** An integer as an exact, not yet rounded, binary number. *)
Definition exact (n : Z) : float :=
  match n with
  | Z0 => S754_zero false
  | Zpos p => S754_finite false p 0
  | Zneg p => S754_finite true p 0
  end.

Definition overflow_check (x : float) : outcome float :=
  match x with
  | S754_infinity _ => Raise OverflowError
  | _ => Ok x
  end.

(** [float(n)]: the nearest double, ties to even; too large raises. *)
Definition of_int (n : Z) : outcome float :=
  overflow_check (binary_normalize prec emax n 0 false).

(** [a / b] on two ints: the correctly rounded quotient. *)
Definition int_truediv (a b : Z) : outcome float :=
  if b =? 0 then Raise ZeroDivisionError
  else overflow_check (SFdiv prec emax (exact a) (exact b)).

(** [x / y] on two floats. *)
Definition truediv (x y : float) : outcome float :=
  if is_zero y then Raise ZeroDivisionError
  else Ok (SFdiv prec emax x y).

(** [a / y] with an int on the left. *)
Definition int_div_float (a : Z) (y : float) : outcome float :=
  x <- of_int a ;; truediv x y.

(** [a * y] with an int on the left. *)
Definition int_mul_float (a : Z) (y : float) : outcome float :=
  x <- of_int a ;; Ok (SFmul prec emax x y).

(** [x * b] with an int on the right. *)
Definition float_mul_int (x : float) (b : Z) : outcome float :=
  y <- of_int b ;; Ok (SFmul prec emax x y).

(** [a - y] with an int on the left. *)
Definition int_sub_float (a : Z) (y : float) : outcome float :=
  x <- of_int a ;; Ok (SFsub prec emax x y).

Definition apply_sign (s : bool) (n : Z) : Z := if s then - n else n.

(** [int(x)]: truncation towards zero. *)
Definition to_int (x : float) : outcome Z :=
  match x with
  | S754_nan => Raise ValueError
  | S754_infinity _ => Raise OverflowError
  | S754_zero _ => Ok 0
  | S754_finite s m e => Ok (apply_sign s (Z.shiftl (Zpos m) e))
  end.

(** The integer nearest to [m / 2^k], ties to the even one. *)
Definition nearest_even (m : Z) (k : Z) : Z :=
  let q := Z.shiftr m k in
  let r := m - Z.shiftl q k in
  match Z.compare (2 * r) (Z.shiftl 1 k) with
  | Lt => q
  | Gt => q + 1
  | Eq => if Z.even q then q else q + 1
  end.

(** [round(x)] with one argument: an int, ties to even. *)
Definition round (x : float) : outcome Z :=
  match x with
  | S754_nan => Raise ValueError
  | S754_infinity _ => Raise OverflowError
  | S754_zero _ => Ok 0
  | S754_finite s m e =>
      Ok (apply_sign s
            (if 0 <=? e then Z.shiftl (Zpos m) e else nearest_even (Zpos m) (- e)))
  end.

(** [x > 0] *)
Definition is_positive (x : float) : bool := SFltb pos_zero x.

End PyFloat.

Import PyFloat.

(** ** Strings *)

(** A character is its code point; a [str] is the list of its characters. *)
Abbreviation char := N (only parsing).
Abbreviation str := (list N) (only parsing).

Definition str_of_string (s : string) : str :=
  map N_of_ascii (list_ascii_of_string s).

(** [str(n)], as an f-string formats an int. *)
Definition str_of_int (n : Z) : str :=
  str_of_string (NilZero.string_of_int (Z.to_int n)).

Definition len {A : Type} (l : list A) : Z := Z.of_nat (List.length l).

(** [s[i]]: a negative index counts from the end. *)
Definition getitem {A : Type} (s : list A) (i : Z) : outcome A :=
  let j := if i <? 0 then i + len s else i in
  if (j <? 0) || (len s <=? j) then Raise IndexError
  else match nth_error s (Z.to_nat j) with
       | Some c => Ok c
       | None => Raise IndexError
       end.

(** [s.split(sep)] for a one-character separator. *)
Fixpoint split (sep : ascii) (s : string) : list string :=
  match s with
  | EmptyString => [EmptyString]
  | String c rest =>
      if Ascii.eqb c sep then EmptyString :: split sep rest
      else match split sep rest with
           | [] => [String c EmptyString]
           | w :: ws => String c w :: ws
           end
  end.

(** ** Constants *)

Definition GRAYSCALE_GRADIENTS : list str :=
  [ str_of_string "@%#*+=-:. ";
    [9608; 9608; 9619; 9618; 9617; 32; 32]%N;
    [9632; 9632; 9635; 9641; 9640; 9634; 32; 32]%N ].

(** The module-level settings [ProcessGif] and its callees read. *)
Record globals : Type := {
  OUTPUT_DIR : string;
  GRAYSCALE_CHARS : str;
  SAVE_ENABLED : bool
}.

(** ** Images *)

(** A frame in mode ['L']: the intensity at column [x] and row [y]. *)
Definition frame : Type := Z -> Z -> Z.

Record image : Type := {
  size : Z * Z;
  frames : list frame
}.

Definition n_frames (im : image) : Z := len (frames im).

Definition span (a b : Z) : list Z :=
  map (fun i => a + Z.of_nat i) (seq 0 (Z.to_nat (b - a))).

(** [list(frame.crop(box).convert('L').getdata())]: the pixels of the box,
    row by row.  [crop] refuses a box whose right or lower edge comes
    before its left or upper edge, and returns an image without pixels
    when two opposite edges coincide. *)
Definition crop (f : frame) (box : Z * Z * Z * Z) : outcome (list Z) :=
  let '(x1, y1, x2, y2) := box in
  if (x2 <? x1) || (y2 <? y1) then Raise ValueError
  else Ok (flat_map (fun y => map (fun x => f x y) (span x1 x2)) (span y1 y2)).

Definition sum (l : list Z) : Z := fold_right Z.add 0 l.

(** ** Tile sampler *)

(** [pixels] is [list(tile.convert('L').getdata())]. *)
Definition GetAverageBrightness (pixels : list Z) : outcome Z :=
  if len pixels =? 0 then Raise ZeroDivisionError
  else Ok (sum pixels / len pixels).

(** ** The world: the files under the output directory and the terminal *)

Inductive event : Type :=
| Print (line : str)
| PrintTileSize (tileWidth tileHeight : float)
| Write (text : str).

Record world : Type := {
  files : string -> option str;
  stdout : list event
}.

Definition io (A : Type) : Type := world -> outcome A * world.

Definition ret {A : Type} (a : A) : io A := fun w => (Ok a, w).

Definition io_bind {A B : Type} (c : io A) (k : A -> io B) : io B :=
  fun w =>
    match c w with
    | (Ok a, w') => k a w'
    | (Raise e, w') => (Raise e, w')
    | (Exit n, w') => (Exit n, w')
    end.

Definition lift {A : Type} (c : outcome A) : io A := fun w => (c, w).

Notation "x <~ c ;; k" := (io_bind c (fun x => k))
  (at level 61, c at next level, right associativity) : py_scope.
Notation "' p <~ c ;; k" := (io_bind c (fun x => let 'p := x in k))
  (at level 61, p pattern, c at next level, right associativity) : py_scope.
Notation "c ;;; k" := (io_bind c (fun _ => k))
  (at level 61, right associativity) : py_scope.

Definition emit (e : event) : io unit :=
  fun w => (Ok tt, {| files := files w; stdout := stdout w ++ [e] |}).

Definition print (line : str) : io unit := emit (Print line).

Definition exit {A : Type} (code : Z) : io A := fun w => (Exit code, w).

Fixpoint io_for_each {A : Type} (f : A -> io unit) (xs : list A) : io unit :=
  match xs with
  | [] => ret tt
  | x :: rest => f x ;;; io_for_each f rest
  end.

Inductive write_mode : Type := mode_w | mode_a.

(** [open(path, mode)] followed by the writes of [text] and the close. *)
Definition write_file (path : string) (mode : write_mode) (text : str) : io unit :=
  fun w =>
    let old := match mode with
               | mode_w => []
               | mode_a => match files w path with Some t => t | None => [] end
               end in
    (Ok tt,
     {| files := fun p => if String.eqb p path then Some (old ++ text) else files w p;
        stdout := stdout w |}).

Definition newline : str := [10%N].

(** ** Output of one frame *)

Definition PrintFrame (asciiImg : list str) : io unit :=
  io_for_each print asciiImg.

Definition output_path (g : globals) (filename : string) : string :=
  (OUTPUT_DIR g ++ "/" ++ filename ++ ".txt")%string.

Definition frame_block (asciiImg : list str) (frameNumber : Z) : str :=
  (str_of_string "Frame " ++ str_of_int frameNumber ++ newline)
  ++ List.concat (map (fun line => line ++ newline) asciiImg).

Definition SaveFrame (g : globals) (asciiImg : list str) (filename : string)
    (frameNumber : Z) (writeMode : write_mode) : io unit :=
  write_file (output_path g filename) writeMode (frame_block asciiImg frameNumber).

(** ** Grid geometry resolver *)

(** [frame_size] is [frame.size]. *)
Definition GetFrameData (frame_size : Z * Z) (width : Z) (scale : float)
    : io (Z * Z * float * float * Z) :=
  let imgWidth := fst frame_size in
  let imgHeight := snd frame_size in
  print (str_of_string "Image size: " ++ str_of_int imgWidth
         ++ str_of_string "x" ++ str_of_int imgHeight) ;;;
  tileWidth <~ lift (int_truediv imgWidth width) ;;
  tileHeight <~ lift (truediv tileWidth scale) ;;
  emit (PrintTileSize tileWidth tileHeight) ;;;
  height <~ lift (q <- int_div_float imgHeight tileHeight ;; to_int q) ;;
  print (str_of_string "Total height: " ++ str_of_int height) ;;;
  if (imgWidth <? width) || (height <? 1) then
    print (str_of_string "Image is too small to process.") ;;;
    exit 1
  else
    ret (imgWidth, imgHeight, tileWidth, tileHeight, height).

(** ** Frame renderer *)

(** The pixel bounds of tile [i] along one axis: [int(i * tileSize)] and
    [int((i + 1) * tileSize)], the latter replaced by the image size for
    the last tile. *)
Definition tile_bounds (i : Z) (tileSize : float) (count imgSize : Z)
    : outcome (Z * Z) :=
  lo <- (p <- int_mul_float i tileSize ;; to_int p) ;;
  hi <- (p <- int_mul_float (i + 1) tileSize ;; to_int p) ;;
  Ok (lo, if i =? count - 1 then imgSize else hi).

(** The index into the gradient for one brightness. *)
Definition ramp_index (inverse : bool) (avgBrightness : Z) (rampLength : Z)
    : outcome Z :=
  if inverse then
    q <- int_truediv avgBrightness 255 ;;
    d <- int_sub_float 1 q ;;
    p <- float_mul_int d (rampLength - 1) ;;
    round p
  else
    q <- int_truediv avgBrightness 255 ;;
    p <- float_mul_int q (rampLength - 1) ;;
    round p.

(** [ramp] stands for the global [GRAYSCALE_CHARS] the function reads. *)
Definition ProcessFrame (ramp : str) (f : frame) (imgWidth imgHeight : Z)
    (tileWidth tileHeight : float) (width height : Z) (inverse : bool)
    : outcome (list str) :=
  for_each (fun y =>
    ' (y1, y2) <- tile_bounds y tileHeight height imgHeight ;;
    for_each (fun x =>
      ' (x1, x2) <- tile_bounds x tileWidth width imgWidth ;;
      tile <- crop f (x1, y1, x2, y2) ;;
      avgBrightness <- GetAverageBrightness tile ;;
      index <- ramp_index inverse avgBrightness (len ramp) ;;
      getitem ramp index)
    (range width))
  (range height).

(** ** Playback driver *)

(** [videoPath.split('/')[-1].split('.')[0]] *)
Definition video_name (videoPath : string) : string :=
  hd EmptyString (split "." (last (split "/" videoPath) EmptyString)).

(** What [ImageSequence.Iterator] yields: each frame with its [tell()]. *)
Definition indexed {A : Type} (l : list A) : list (Z * A) :=
  combine (range (len l)) l.

(** [im] is what [Image.open(videoPath)] returned. *)
Definition ProcessGif (g : globals) (im : image) (videoPath : string)
    (width : Z) (scale : float) (frameToPrint : Z) (inverse : bool) : io unit :=
  let videoName := video_name videoPath in
  ' (imgWidth, imgHeight, tileWidth, tileHeight, height) <~
     GetFrameData (size im) width scale ;;
  if negb (frameToPrint =? 0) then
    let k := frameToPrint - 1 in
    if (k <? 0) || (n_frames im <=? k) then
      print (str_of_string "Frame " ++ str_of_int frameToPrint
             ++ str_of_string " is out of range. Total frames: "
             ++ str_of_int (n_frames im)) ;;;
      exit 1
    else
      grayscale <~ lift (getitem (frames im) k) ;;
      asciiImg <~ lift (ProcessFrame (GRAYSCALE_CHARS g) grayscale imgWidth imgHeight
                          tileWidth tileHeight width height inverse) ;;
      if negb (SAVE_ENABLED g) then PrintFrame asciiImg
      else SaveFrame g asciiImg videoName k mode_w
  else
    io_for_each (fun '(tell, grayscale) =>
      print (str_of_string "Frame number: " ++ str_of_int tell) ;;;
      asciiImg <~ lift (ProcessFrame (GRAYSCALE_CHARS g) grayscale imgWidth imgHeight
                          tileWidth tileHeight width height inverse) ;;
      if SAVE_ENABLED g then
        SaveFrame g asciiImg videoName tell mode_a
      else
        PrintFrame asciiImg ;;;
        if negb (tell =? n_frames im - 1) then
          emit (Write ([27%N] ++ str_of_string "[" ++ str_of_int (len asciiImg + 1)
                       ++ str_of_string "A"))
        else ret tt)
    (indexed (frames im)).

(** ** Vocabulary of the properties *)

(** The box of tile [(x, y)], from the two bound computations of
    [ProcessFrame]. *)
Definition tile_box (imgWidth imgHeight : Z) (tileWidth tileHeight : float)
    (width height x y : Z) : outcome (Z * Z * Z * Z) :=
  ' (y1, y2) <- tile_bounds y tileHeight height imgHeight ;;
  ' (x1, x2) <- tile_bounds x tileWidth width imgWidth ;;
  Ok (x1, y1, x2, y2).

(** Pixel [(px, py)] lies in the half-open box. *)
Definition in_box (box : Z * Z * Z * Z) (px py : Z) : Prop :=
  let '(x1, y1, x2, y2) := box in x1 <= px < x2 /\ y1 <= py < y2.

(** Along one axis the first tile starts at 0, the upper bound of each
    tile is the lower bound of the next, and the last tile ends at the
    image size. *)
Definition bounds_meet (tileSize : float) (count imgSize : Z) : Prop :=
  (exists b, tile_bounds 0 tileSize count imgSize = Ok (0, b)) /\
  (forall i, 0 <= i -> i + 1 < count ->
     exists a b c, tile_bounds i tileSize count imgSize = Ok (a, b) /\
                   tile_bounds (i + 1) tileSize count imgSize = Ok (b, c)) /\
  (exists a, tile_bounds (count - 1) tileSize count imgSize = Ok (a, imgSize)).

(** Every tile is a non-empty box inside the image. *)
Definition tiles_inside (imgWidth imgHeight : Z) (tileWidth tileHeight : float)
    (width height : Z) : Prop :=
  forall x y, 0 <= x < width -> 0 <= y < height ->
    exists x1 y1 x2 y2,
      tile_box imgWidth imgHeight tileWidth tileHeight width height x y
        = Ok (x1, y1, x2, y2) /\
      0 <= x1 < x2 /\ x2 <= imgWidth /\ 0 <= y1 < y2 /\ y2 <= imgHeight.

(** Every pixel of the image lies in the box of exactly one tile. *)
Definition exactly_one_tile (imgWidth imgHeight : Z) (tileWidth tileHeight : float)
    (width height : Z) : Prop :=
  forall px py, 0 <= px < imgWidth -> 0 <= py < imgHeight ->
    exists x y box,
      (0 <= x < width /\ 0 <= y < height) /\
      tile_box imgWidth imgHeight tileWidth tileHeight width height x y = Ok box /\
      in_box box px py /\
      forall x' y' box',
        0 <= x' < width -> 0 <= y' < height ->
        tile_box imgWidth imgHeight tileWidth tileHeight width height x' y' = Ok box' ->
        in_box box' px py ->
        x' = x /\ y' = y.

(** The character of row [y], column [x] of a rendered frame. *)
Definition glyph_at (img : list str) (x y : Z) : option char :=
  match nth_error img (Z.to_nat y) with
  | Some row => nth_error row (Z.to_nat x)
  | None => None
  end.

(** The edge between tile [i - 1] and tile [i] along one axis: the lower
    bound of tile [i], and the image size after the last tile. *)
Definition edge (tileSize : float) (count imgSize i : Z) : Z :=
  if i =? count then imgSize
  else match (p <- int_mul_float i tileSize ;; to_int p) with
       | Ok v => v
       | _ => 0
       end.

(** [math.floor(x)], the rounding the specification names. *)
Definition floor (x : float) : outcome Z :=
  match x with
  | S754_nan => Raise ValueError
  | S754_infinity _ => Raise OverflowError
  | S754_zero _ => Ok 0
  | S754_finite s m e => Ok (Z.shiftl (apply_sign s (Zpos m)) e)
  end.

(** The sign bit is clear (or the value is not a number). *)
Definition sign_clear (x : float) : Prop :=
  match x with
  | S754_zero s | S754_infinity s | S754_finite s _ _ => s = false
  | S754_nan => True
  end.

(** The world after more events went to the terminal. *)
Definition say (w : world) (es : list event) : world :=
  {| files := files w; stdout := stdout w ++ es |}.

Definition empty_world : world :=
  {| files := fun _ => None; stdout := [] |}.

(** What [GetFrameData] prints before its feasibility check. *)
Definition geometry_report (imgWidth imgHeight : Z) (tileWidth tileHeight : float)
    (height : Z) : list event :=
  [ Print (str_of_string "Image size: " ++ str_of_int imgWidth
           ++ str_of_string "x" ++ str_of_int imgHeight);
    PrintTileSize tileWidth tileHeight;
    Print (str_of_string "Total height: " ++ str_of_int height) ].

Definition too_small_message : event :=
  Print (str_of_string "Image is too small to process.").

(** The diagnostic of single-frame mode. *)
Definition out_of_range_message (frameToPrint total : Z) : event :=
  Print (str_of_string "Frame " ++ str_of_int frameToPrint
         ++ str_of_string " is out of range. Total frames: "
         ++ str_of_int total).

(** The text of a file, an absent file having none. *)
Definition content (w : world) (path : string) : str :=
  match files w path with
  | Some text => text
  | None => []
  end.

(** The world after continuous mode handled one rendered frame. *)
Definition played (g : globals) (videoName : string) (total : Z) (w : world)
    (tell : Z) (asciiImg : list str) : world :=
  let w1 := say w [Print (str_of_string "Frame number: " ++ str_of_int tell)] in
  if SAVE_ENABLED g then
    snd (SaveFrame g asciiImg videoName tell mode_a w1)
  else
    say w1 (map Print asciiImg
            ++ if tell =? total - 1 then []
               else [Write ([27%N] ++ str_of_string "[" ++ str_of_int (len asciiImg + 1)
                            ++ str_of_string "A")]).

(** The world after continuous mode handled the rendered frames in turn. *)
Definition played_all (g : globals) (videoName : string) (total : Z)
    (w : world) (asciiImgs : list (list str)) : world :=
  fold_left (fun w0 '(tell, asciiImg) => played g videoName total w0 tell asciiImg)
            (indexed asciiImgs) w.

(** Every frame of the image renders with the given geometry. *)
Definition all_render (g : globals) (im : image) (width : Z) (inverse : bool)
    (geometry : Z * Z * float * float * Z) (asciiImgs : list (list str)) : Prop :=
  let '(imgWidth, imgHeight, tileWidth, tileHeight, height) := geometry in
  Forall2 (fun grayscale asciiImg =>
             ProcessFrame (GRAYSCALE_CHARS g) grayscale imgWidth imgHeight
               tileWidth tileHeight width height inverse = Ok asciiImg)
          (frames im) asciiImgs.

(** The blocks continuous mode writes for the rendered frames, in order. *)
Definition frame_blocks (asciiImgs : list (list str)) : str :=
  List.concat (map (fun '(tell, asciiImg) => frame_block asciiImg tell)
                   (indexed asciiImgs)).

(** A two-frame 4 x 4 image, black then white, and the settings used to
    run the driver on it. *)
Definition demo_image : image :=
  {| size := (4, 4); frames := [fun _ _ => 0; fun _ _ => 255] |}.

Definition demo_globals (save : bool) : globals :=
  {| OUTPUT_DIR := "out";
     GRAYSCALE_CHARS := str_of_string "@%#*+=-:. ";
     SAVE_ENABLED := save |}.

Definition two : float := S754_finite false 4503599627370496 (-51).

Definition demo_geometry : Z * Z * float * float * Z := (4, 4, two, two, 2).

Definition demo_rendered : list (list str) :=
  [ [ [64; 64]; [64; 64] ]; [ [32; 32]; [32; 32] ] ]%N.

(** A world whose output file already holds a line. *)
Definition used_world : world :=
  {| files := fun p => if String.eqb p "out/cat.txt"
                       then Some (str_of_string "old" ++ newline) else None;
     stdout := [] |}.

(** The index the specification writes, in exact arithmetic: the integer
    nearest to [(b / 255) * (N - 1)], or to [(1 - b / 255) * (N - 1)] when
    inverted.  Twice the numerator is even and 255 is odd, so no tie
    arises for an integer brightness; the tie-break is the even one. *)
Definition spec_index (inverse : bool) (b rampLength : Z) : Z :=
  let num := (if inverse then 255 - b else b) * (rampLength - 1) in
  let q := num / 255 in
  let r := num mod 255 in
  match Z.compare (2 * r) 255 with
  | Lt => q
  | Gt => q + 1
  | Eq => if Z.even q then q else q + 1
  end.

Definition outcome_eqb (c : outcome Z) (n : Z) : bool :=
  match c with Ok m => m =? n | _ => false end.


(** The outcome is a value or one of the exceptions of float arithmetic
    and tile sampling: not [IndexError], not [exit]. *)
Definition arithmetic_failure_only {A : Type} (c : outcome A) : Prop :=
  match c with
  | Ok _ => True
  | Raise IndexError => False
  | Raise _ => True
  | Exit _ => False
  end.

(** A run changes no file outside [allowed] and only adds to the
    terminal. *)
Definition confined {A : Type} (allowed : string -> Prop) (c : io A) : Prop :=
  forall w,
    (forall p, ~ allowed p -> files (snd (c w)) p = files w p) /\
    (exists es, stdout (snd (c w)) = stdout w ++ es).

(** What continuous mode sends to the terminal for one frame when saving
    is off: the frame number, the lines, and the escape sequence that
    moves the cursor up unless the frame is the last. *)
Definition live_events (total height : Z) (tell : Z) (asciiImg : list str)
    : list event :=
  Print (str_of_string "Frame number: " ++ str_of_int tell)
  :: map Print asciiImg
  ++ (if tell =? total - 1 then []
      else [Write ([27%N] ++ str_of_string "[" ++ str_of_int (height + 1)
                   ++ str_of_string "A")]).


(** The sign bit is [s] (or the value is not a number). *)
Definition has_sign (s : bool) (x : float) : Prop :=
  match x with
  | S754_zero s' | S754_infinity s' | S754_finite s' _ _ => s' = s
  | S754_nan => True
  end.

(** The line [GetFrameData] prints first. *)
Definition image_size_line (imgWidth imgHeight : Z) : event :=
  Print (str_of_string "Image size: " ++ str_of_int imgWidth
         ++ str_of_string "x" ++ str_of_int imgHeight).


(** Character [c] occurs in [s]. *)
Definition occurs (c : ascii) (s : string) : Prop :=
  In c (list_ascii_of_string s).


Definition half : float := S754_finite false 4503599627370496 (-53).

(** The progress line continuous mode prints before it renders a frame. *)
Definition frame_number_line (tell : Z) : event :=
  Print (str_of_string "Frame number: " ++ str_of_int tell).

(** Every pixel of the frame is a byte, as in a grayscale image. *)
Definition grayscale_frame (f : frame) : Prop :=
  forall x y, 0 <= f x y <= 255.


(** The two-frame image with its first frame replaced by a gradient. *)
Definition other_image : image :=
  {| size := (4, 4); frames := [fun x y => 16 * x + y; fun _ _ => 255] |}.

(** The value is an infinity. *)
Definition is_infinite (x : float) : bool :=
  match x with S754_infinity _ => true | _ => false end.

(** The row count the specification writes, in exact arithmetic, for a
    finite positive scale [m * 2^e]:
    [floor(sourceHeight / ((sourceWidth / outputWidthChars) / scale))]. *)
Definition exact_rows (sw sh ow : Z) (scale : float) : option Z :=
  match scale with
  | S754_finite false m e =>
      if sw =? 0 then None
      else Some ((sh * ow * Zpos m * 2 ^ Z.max 0 e) / (sw * 2 ^ Z.max 0 (- e)))
  | _ => None
  end.

(** A white image of the given size as [crop] sees it: outside the image
    a cropped pixel is 0. *)
Definition white_frame (imgWidth imgHeight : Z) : frame :=
  fun x y =>
    if (0 <=? x) && (x <? imgWidth) && (0 <=? y) && (y <? imgHeight) then 255 else 0.

(** * Properties *)

(** ** Loops and ranges *)

Lemma bind_Ok {A B : Type} (c : outcome A) (k : A -> outcome B) (b : B) :
  bind c k = Ok b -> exists a, c = Ok a /\ k a = Ok b.
Proof.
  destruct c as [a| |]; simpl; intro H; try discriminate.
  exists a; split; [reflexivity | exact H].
Qed.

Lemma for_each_Forall2 {A B : Type} (f : A -> outcome B) (xs : list A) :
  forall ys, for_each f xs = Ok ys -> Forall2 (fun x y => f x = Ok y) xs ys.
Proof.
  induction xs as [|x rest IH]; simpl; intros ys H.
  - injection H as <-; constructor.
  - apply bind_Ok in H as (b & Hb & H).
    apply bind_Ok in H as (bs & Hbs & H).
    injection H as <-.
    constructor; [exact Hb | apply IH, Hbs].
Qed.

Lemma for_each_exists {A B : Type} (f : A -> outcome B) (xs : list A) :
  (forall x, In x xs -> exists y, f x = Ok y) -> exists ys, for_each f xs = Ok ys.
Proof.
  induction xs as [|x rest IH]; simpl; intro H; [eexists; reflexivity|].
  destruct (H x) as [y Hy]; [left; reflexivity|].
  destruct IH as [ys Hys]; [intros; apply H; right; assumption|].
  rewrite Hy, Hys; simpl; eexists; reflexivity.
Qed.

Lemma Forall2_nth_error {A B : Type} (R : A -> B -> Prop) (xs : list A) (ys : list B) :
  Forall2 R xs ys ->
  forall n x, nth_error xs n = Some x -> exists y, nth_error ys n = Some y /\ R x y.
Proof.
  induction 1 as [|x0 y0 xs ys HR _ IH]; intros [|n] x Hn; simpl in *; try discriminate.
  - injection Hn as <-; exists y0; split; [reflexivity | exact HR].
  - apply IH, Hn.
Qed.

Lemma nth_error_lt {A : Type} (l : list A) (n : nat) (x : A) :
  nth_error l n = Some x -> (n < List.length l)%nat.
Proof. intro H; apply nth_error_Some; rewrite H; discriminate. Qed.

Lemma range_length (n : Z) : List.length (range n) = Z.to_nat n.
Proof. unfold range; now rewrite length_map, length_seq. Qed.

Lemma range_nth_error (n i : Z) :
  0 <= i < n -> nth_error (range n) (Z.to_nat i) = Some i.
Proof.
  intros [H0 H1]; unfold range.
  rewrite nth_error_map, nth_error_seq.
  replace (Z.to_nat i <? Z.to_nat n)%nat with true
    by (symmetry; apply Nat.ltb_lt; lia).
  simpl; f_equal; lia.
Qed.

Lemma range_In (n i : Z) : In i (range n) <-> 0 <= i < n.
Proof.
  unfold range; rewrite in_map_iff; split.
  - intros (k & <- & Hk); apply in_seq in Hk; lia.
  - intros H; exists (Z.to_nat i); split; [lia | apply in_seq; lia].
Qed.

Lemma span_length (a b : Z) : len (span a b) = Z.max 0 (b - a).
Proof. unfold len, span; rewrite length_map, length_seq; lia. Qed.

Lemma getitem_In {A : Type} (s : list A) (i : Z) (c : A) :
  getitem s i = Ok c -> In c s.
Proof.
  unfold getitem.
  destruct (_ || _); [discriminate|].
  destruct (nth_error s _) eqn:E; [|discriminate].
  intro H; injection H as <-.
  eapply nth_error_In, E.
Qed.

Lemma getitem_in_range {A : Type} (l : list A) (k : Z) :
  0 <= k < len l ->
  exists a, getitem l k = Ok a /\ nth_error l (Z.to_nat k) = Some a.
Proof.
  intros [H0 H1]; unfold getitem.
  replace (k <? 0) with false by (symmetry; apply Z.ltb_ge; lia).
  replace ((k <? 0) || (len l <=? k)) with false
    by (symmetry; apply orb_false_iff; split; [apply Z.ltb_ge | apply Z.leb_gt]; lia).
  destruct (nth_error l (Z.to_nat k)) as [a|] eqn:E.
  - exists a; split; reflexivity.
  - apply nth_error_None in E; unfold len in H1; lia.
Qed.

(** ** Decimal numerals *)

Lemma str_of_string_inj (s t : string) : str_of_string s = str_of_string t -> s = t.
Proof.
  unfold str_of_string; intro H.
  rewrite <- (string_of_list_ascii_of_string s), <- (string_of_list_ascii_of_string t).
  f_equal.
  revert H; generalize (list_ascii_of_string s) (list_ascii_of_string t).
  induction l as [|a l IH]; intros [|b l']; simpl; intro H; try discriminate.
  - reflexivity.
  - injection H as Hab Hl; f_equal; [|apply IH, Hl].
    rewrite <- (ascii_N_embedding a), <- (ascii_N_embedding b); now f_equal.
Qed.

(** Two ints with the same numeral are equal. *)
Lemma str_of_int_inj (a b : Z) : str_of_int a = str_of_int b -> a = b.
Proof.
  unfold str_of_int; intro H; apply str_of_string_inj in H.
  apply DecimalZ.to_int_inj.
  assert (Hnn : forall z, Z.to_int z <> Decimal.Pos Decimal.Nil /\
                          Z.to_int z <> Decimal.Neg Decimal.Nil).
  { intros [|p|p]; simpl; split; try discriminate; intros [= E];
      exact (DecimalPos.Unsigned.to_uint_nonnil p E). }
  apply (f_equal NilZero.int_of_string) in H.
  rewrite !NilZero.isi in H by apply Hnn.
  now injection H.
Qed.

(** ** Tile sampler *)

Lemma sum_bounds (lo hi : Z) (l : list Z) :
  Forall (fun p => lo <= p <= hi) l -> lo * len l <= sum l <= hi * len l.
Proof.
  unfold len; induction 1 as [|p l Hp _ IH]; simpl List.length; simpl sum; [lia|].
  rewrite Nat2Z.inj_succ; nia.
Qed.

Lemma mean_in_range (pixels : list Z) :
  pixels <> [] ->
  Forall (fun p => 0 <= p <= 255) pixels ->
  GetAverageBrightness pixels = Ok (sum pixels / len pixels) /\
  0 <= sum pixels / len pixels <= 255.
Proof.
  intros Hne Hpix.
  assert (Hlen : 0 < len pixels).
  { unfold len; destruct pixels; [congruence | simpl; lia]. }
  pose proof (sum_bounds 0 255 pixels Hpix) as Hsum.
  unfold GetAverageBrightness.
  replace (len pixels =? 0) with false by (symmetry; apply Z.eqb_neq; lia).
  split; [reflexivity|]; split.
  - apply Z.div_pos; lia.
  - apply Z.div_le_upper_bound; lia.
Qed.

(** C5.  On a tile of at least one pixel, each an intensity between 0 and
    255, the sampler returns the mean of the intensities rounded down, and
    that mean lies between 0 and 255. *)
Theorem GetAverageBrightness_floor_mean (pixels : list Z) :
  pixels <> [] ->
  Forall (fun p => 0 <= p <= 255) pixels ->
  exists b,
    GetAverageBrightness pixels = Ok b /\
    b = sum pixels / len pixels /\
    b * len pixels <= sum pixels < (b + 1) * len pixels /\
    0 <= b <= 255.
Proof.
  intros Hne Hpix.
  destruct (mean_in_range pixels Hne Hpix) as [Hb Hr].
  assert (Hlen : 0 < len pixels).
  { unfold len; destruct pixels; [congruence | simpl; lia]. }
  exists (sum pixels / len pixels).
  pose proof (Z.div_mod (sum pixels) (len pixels) ltac:(lia)) as Hdm.
  pose proof (Z.mod_pos_bound (sum pixels) (len pixels) Hlen) as Hmod.
  split; [exact Hb|]; split; [reflexivity|]; split; [nia | exact Hr].
Qed.

Lemma GetAverageBrightness_floor_mean_witness :
  [10; 20; 35] <> [] /\
  Forall (fun p => 0 <= p <= 255) [10; 20; 35] /\
  exists b, GetAverageBrightness [10; 20; 35] = Ok b /\ b = 21.
Proof.
  split; [discriminate|].
  split; [repeat constructor; lia|].
  destruct (GetAverageBrightness_floor_mean [10; 20; 35]) as (b & Hb & Hv & _).
  - discriminate.
  - repeat constructor; lia.
  - exists b; split; [exact Hb | rewrite Hv; reflexivity].
Defined.

(** The sampler fails exactly on the empty tile. *)
Lemma GetAverageBrightness_empty (pixels : list Z) :
  GetAverageBrightness pixels = Raise ZeroDivisionError <-> pixels = [].
Proof.
  unfold GetAverageBrightness, len; destruct pixels as [|p l]; simpl.
  - split; reflexivity.
  - split; discriminate.
Qed.

Lemma crop_len (f : frame) (x1 y1 x2 y2 : Z) (pixels : list Z) :
  crop f (x1, y1, x2, y2) = Ok pixels ->
  x1 <= x2 /\ y1 <= y2 /\ len pixels = (x2 - x1) * (y2 - y1).
Proof.
  unfold crop.
  destruct (_ || _) eqn:E; [discriminate|].
  apply orb_false_iff in E as [Ex Ey]; apply Z.ltb_ge in Ex, Ey.
  intro H; injection H as <-.
  split; [exact Ex|]; split; [exact Ey|].
  pose proof (span_length x1 x2) as Hx.
  pose proof (span_length y1 y2) as Hy.
  revert Hy; generalize (span y1 y2) as ys; intros ys Hy.
  assert (Hgen : len (flat_map (fun y => map (fun x => f x y) (span x1 x2)) ys)
                 = (x2 - x1) * len ys).
  { clear Hy; unfold len in *.
    induction ys as [|y ys IH]; cbn [flat_map List.length]; [lia|].
    rewrite length_app, length_map, Nat2Z.inj_add, IH, Nat2Z.inj_succ; lia. }
  rewrite Hgen, Hy, Z.max_r by lia; reflexivity.
Qed.

(** A tile that was sampled had at least one pixel. *)
Lemma sampled_tile_nonempty (f : frame) (x1 y1 x2 y2 b : Z) :
  (tile <- crop f (x1, y1, x2, y2) ;; GetAverageBrightness tile) = Ok b ->
  x1 < x2 /\ y1 < y2.
Proof.
  intro H; apply bind_Ok in H as (pixels & Hc & Hb).
  apply crop_len in Hc as (Hx & Hy & Hl).
  unfold GetAverageBrightness in Hb.
  destruct (len pixels =? 0) eqn:E; [discriminate|].
  apply Z.eqb_neq in E; nia.
Qed.

(** Sampling a box with at least one pixel succeeds on every frame whose
    intensities are bytes. *)
Lemma sample_nonempty_box (f : frame) (x1 y1 x2 y2 : Z) :
  (forall x y, 0 <= f x y <= 255) -> x1 < x2 -> y1 < y2 ->
  exists tile b,
    crop f (x1, y1, x2, y2) = Ok tile /\
    GetAverageBrightness tile = Ok b /\ 0 <= b <= 255.
Proof.
  intros Hf Hx Hy.
  destruct (crop f (x1, y1, x2, y2)) as [tile| |] eqn:Hc.
  - pose proof (crop_len _ _ _ _ _ _ Hc) as (_ & _ & Hl).
    assert (Hpix : Forall (fun p => 0 <= p <= 255) tile).
    { unfold crop in Hc; destruct (_ || _); [discriminate|].
      injection Hc as <-.
      apply Forall_forall; intros p Hp.
      apply in_flat_map in Hp as (y & _ & Hp).
      apply in_map_iff in Hp as (x & <- & _); apply Hf. }
    destruct (mean_in_range tile) as [Hb Hr]; [|exact Hpix|].
    + intros ->; unfold len in Hl; simpl in Hl; nia.
    + exists tile, (sum tile / len tile); repeat split; try assumption; lia.
  - exfalso; unfold crop in Hc.
    replace ((x2 <? x1) || (y2 <? y1)) with false in Hc
      by (symmetry; apply orb_false_iff; split; apply Z.ltb_ge; lia).
    discriminate.
  - exfalso; unfold crop in Hc; destruct (_ || _); discriminate.
Qed.

(** ** Frame renderer: what one cell goes through *)

Lemma ProcessFrame_rows (ramp : str) (f : frame) (iw ih : Z) (tw th : float)
    (w h : Z) (inv : bool) (img : list str) :
  ProcessFrame ramp f iw ih tw th w h inv = Ok img ->
  List.length img = Z.to_nat h /\
  forall y, 0 <= y < h ->
    exists row y1 y2,
      nth_error img (Z.to_nat y) = Some row /\
      tile_bounds y th h ih = Ok (y1, y2) /\
      List.length row = Z.to_nat w /\
      forall x, 0 <= x < w ->
        exists c x1 x2 tile b i,
          nth_error row (Z.to_nat x) = Some c /\
          tile_bounds x tw w iw = Ok (x1, x2) /\
          crop f (x1, y1, x2, y2) = Ok tile /\
          GetAverageBrightness tile = Ok b /\
          ramp_index inv b (len ramp) = Ok i /\
          getitem ramp i = Ok c.
Proof.
  unfold ProcessFrame; intro H.
  apply for_each_Forall2 in H.
  split.
  { apply Forall2_length in H; rewrite <- H; apply range_length. }
  intros y Hy.
  destruct (Forall2_nth_error _ _ _ H _ _ (range_nth_error h y Hy))
    as (row & Hrow & Hr).
  apply bind_Ok in Hr as ([y1 y2] & Hyb & Hr).
  apply for_each_Forall2 in Hr.
  exists row, y1, y2; repeat split; try assumption.
  { apply Forall2_length in Hr; rewrite <- Hr; apply range_length. }
  intros x Hx.
  destruct (Forall2_nth_error _ _ _ Hr _ _ (range_nth_error w x Hx))
    as (c & Hc & Hcell).
  apply bind_Ok in Hcell as ([x1 x2] & Hxb & Hcell).
  apply bind_Ok in Hcell as (tile & Ht & Hcell).
  apply bind_Ok in Hcell as (b & Hb & Hcell).
  apply bind_Ok in Hcell as (i & Hi & Hcell).
  exists c, x1, x2, tile, b, i; repeat split; assumption.
Qed.

(** ** Floats that hold an integer exactly *)

Lemma digits2_pos_bounds (p : positive) :
  2 ^ (Zpos (digits2_pos p) - 1) <= Zpos p < 2 ^ Zpos (digits2_pos p).
Proof.
  induction p as [p IH|p IH|]; cbn [digits2_pos].
  - rewrite Pos2Z.inj_succ, (Pos2Z.inj_xI p).
    replace (Z.succ (Zpos (digits2_pos p)) - 1) with (Z.succ (Zpos (digits2_pos p) - 1)) by lia.
    rewrite !Z.pow_succ_r by lia; lia.
  - rewrite Pos2Z.inj_succ, (Pos2Z.inj_xO p).
    replace (Z.succ (Zpos (digits2_pos p)) - 1) with (Z.succ (Zpos (digits2_pos p) - 1)) by lia.
    rewrite !Z.pow_succ_r by lia; lia.
  - simpl; lia.
Qed.

Lemma digits2_pos_shift (p k : positive) :
  digits2_pos (Pos.iter xO p k) = (digits2_pos p + k)%positive.
Proof.
  induction k as [|k IH] using Pos.peano_ind.
  - simpl; lia.
  - rewrite Pos.iter_succ; cbn [digits2_pos]; rewrite IH; lia.
Qed.

Lemma shift_value (p k : positive) :
  Zpos (Pos.iter xO p k) = Zpos p * 2 ^ Zpos k.
Proof.
  change (Pos.iter xO p k) with (shift_pos k p).
  rewrite shift_pos_correct.
  change (Z.pow_pos 2 k) with (2 ^ Zpos k); lia.
Qed.

(** A 53-bit mantissa with an exponent in range is already rounded. *)
Lemma binary_round_aux_canonical (s : bool) (m : positive) (e : Z) :
  digits2_pos m = 53%positive -> -1074 <= e <= 971 ->
  binary_round_aux prec emax s (Zpos m) e loc_Exact = S754_finite s m e.
Proof.
  intros Hd He.
  unfold binary_round_aux, shr_fexp.
  cbn [Zdigits2 shr_record_of_loc]; rewrite Hd.
  replace (fexp prec emax (53 + e) - e) with 0
    by (unfold fexp, SpecFloat.emin, prec, emax; lia).
  cbn [shr shr_m loc_of_shr_record round_nearest_even Zdigits2 shr_record_of_loc].
  rewrite Hd.
  replace (fexp prec emax (53 + e) - e) with 0
    by (unfold fexp, SpecFloat.emin, prec, emax; lia).
  cbn [shr shr_m].
  replace (e <=? emax - prec) with true
    by (symmetry; apply Z.leb_le; unfold prec, emax; lia).
  reflexivity.
Qed.

(** [float(n)] is exact for [0 < n < 2^53]: a 53-bit mantissa [m] and an
    exponent [e <= 0] with [m = n * 2^(-e)]. *)
Lemma of_int_small (p : positive) :
  Zpos p < 2 ^ 53 ->
  exists m e,
    of_int (Zpos p) = Ok (S754_finite false m e) /\
    digits2_pos m = 53%positive /\ -52 <= e <= 0 /\
    Zpos m = Zpos p * 2 ^ (- e).
Proof.
  intro Hp.
  pose proof (digits2_pos_bounds p) as [Hlo _].
  assert (Hd : Zpos (digits2_pos p) <= 53).
  { destruct (Z_le_gt_dec (Zpos (digits2_pos p)) 53) as [|Hgt]; [assumption|].
    exfalso.
    assert (2 ^ 53 <= 2 ^ (Zpos (digits2_pos p) - 1))
      by (apply Z.pow_le_mono_r; lia).
    lia. }
  unfold of_int, binary_normalize, binary_round.
  replace (fexp prec emax (Zpos (digits2_pos p) + 0))
    with (Zpos (digits2_pos p) - 53)
    by (unfold fexp, SpecFloat.emin, prec, emax; lia).
  unfold shl_align.
  destruct (Zpos (digits2_pos p) - 53 - 0) as [|k|k] eqn:Ek; try lia.
  - exists p, 0.
    assert (Hdp : digits2_pos p = 53%positive) by lia.
    rewrite binary_round_aux_canonical by (assumption || lia).
    split; [reflexivity|].
    split; [exact Hdp|].
    split; [lia | simpl; lia].
  - exists (Pos.iter xO p k), (Zpos (digits2_pos p) - 53).
    assert (Hdk : digits2_pos (Pos.iter xO p k) = 53%positive)
      by (rewrite digits2_pos_shift; lia).
    rewrite binary_round_aux_canonical by (assumption || lia).
    split; [reflexivity|].
    split; [exact Hdk|].
    split; [lia|].
    rewrite shift_value; do 2 f_equal; lia.
Qed.

Lemma mul_one_l (s : bool) (m : positive) (e : Z) :
  digits2_pos m = 53%positive -> -1022 <= e <= 971 ->
  SFmul prec emax one (S754_finite s m e) = S754_finite s m e.
Proof.
  intros Hd He.
  unfold one; cbn [SFmul xorb Pos.mul].
  unfold binary_round_aux, shr_fexp.
  cbn [Zdigits2 digits2_pos shr_record_of_loc]; rewrite Hd; cbn [Pos.succ].
  replace (fexp prec emax (Zpos 105 + (-52 + e)) - (-52 + e)) with 52
    by (unfold fexp, SpecFloat.emin, prec, emax; lia).
  cbn [shr iter_pos shr_1 orb shr_m loc_of_shr_record round_nearest_even
       Zdigits2 shr_record_of_loc].
  rewrite Hd.
  replace (fexp prec emax (53 + (-52 + e + 52)) - (-52 + e + 52)) with 0
    by (unfold fexp, SpecFloat.emin, prec, emax; lia).
  cbn [shr shr_m].
  replace (-52 + e + 52 <=? emax - prec) with true
    by (symmetry; apply Z.leb_le; unfold prec, emax; lia).
  f_equal; lia.
Qed.

Lemma mul_zero_l (y : float) (n : Z) :
  to_int (SFmul prec emax pos_zero y) = Ok n -> n = 0.
Proof.
  destruct y as [s|s| |s m e]; cbn; intro H; try discriminate;
    injection H as <-; reflexivity.
Qed.

Lemma round_exact (m : positive) (e n : Z) :
  -52 <= e <= 0 -> Zpos m = n * 2 ^ (- e) ->
  round (S754_finite false m e) = Ok n.
Proof.
  intros He Hm; unfold round, apply_sign.
  destruct (0 <=? e) eqn:E.
  - apply Z.leb_le in E; assert (e = 0) as -> by lia.
    rewrite Z.shiftl_0_r; f_equal; simpl in Hm; lia.
  - f_equal; unfold nearest_even.
    assert (Hpow : 0 < 2 ^ (- e)) by (apply Z.pow_pos_nonneg; lia).
    rewrite Z.shiftr_div_pow2, !Z.shiftl_mul_pow2 by lia.
    rewrite Hm, Z.div_mul by lia.
    replace (2 * (n * 2 ^ (- e) - n * 2 ^ (- e)) ?= 1 * 2 ^ (- e)) with Lt
      by (symmetry; apply Z.compare_lt_iff; lia).
    reflexivity.
Qed.

Lemma scale_zero (n : Z) :
  0 <= n < 2 ^ 53 -> (p <- float_mul_int pos_zero n ;; round p) = Ok 0.
Proof.
  intros Hn; unfold float_mul_int.
  destruct n as [|p|p]; [reflexivity| |lia].
  destruct (of_int_small p) as (m & e & -> & _); [lia|].
  reflexivity.
Qed.

Lemma scale_one (n : Z) :
  0 <= n < 2 ^ 53 -> (p <- float_mul_int one n ;; round p) = Ok n.
Proof.
  intros Hn; unfold float_mul_int.
  destruct n as [|p|p]; [reflexivity| |lia].
  destruct (of_int_small p) as (m & e & -> & Hd & He & Hm); [lia|].
  cbn [bind]; rewrite mul_one_l by (assumption || lia).
  apply round_exact; assumption.
Qed.

(** The two ends of the brightness scale reach the two ends of the
    gradient, and inverting exchanges them. *)
Lemma ramp_index_endpoints (rampLength : Z) :
  1 <= rampLength <= 2 ^ 53 ->
  ramp_index false 0 rampLength = Ok 0 /\
  ramp_index false 255 rampLength = Ok (rampLength - 1) /\
  ramp_index true 0 rampLength = Ok (rampLength - 1) /\
  ramp_index true 255 rampLength = Ok 0.
Proof.
  intro HN; unfold ramp_index.
  change (int_truediv 0 255) with (Ok pos_zero).
  change (int_truediv 255 255) with (Ok one).
  cbn [bind].
  change (int_sub_float 1 pos_zero) with (Ok one).
  change (int_sub_float 1 one) with (Ok pos_zero).
  cbn [bind].
  rewrite scale_zero, scale_one by lia.
  repeat split.
Qed.

Lemma forallb_range (P : Z -> bool) (n : Z) :
  forallb P (range n) = true -> forall i, 0 <= i < n -> P i = true.
Proof.
  intros H i Hi; rewrite forallb_forall in H; apply H, range_In, Hi.
Qed.

(** For every gradient of at most 64 characters, which covers the three
    of the program, the binary64 computation of the index agrees with the
    exact one for every brightness, and the index lies inside the
    gradient. *)
Lemma ramp_index_exact (rampLength : Z) (inverse : bool) (b : Z) :
  1 <= rampLength <= 64 -> 0 <= b <= 255 ->
  ramp_index inverse b rampLength = Ok (spec_index inverse b rampLength) /\
  0 <= spec_index inverse b rampLength < rampLength.
Proof.
  intros HN Hb.
  assert (Hall : forallb (fun n =>
            (n <? 1) ||
            forallb (fun inv =>
              forallb (fun b =>
                outcome_eqb (ramp_index inv b n) (spec_index inv b n)
                && (0 <=? spec_index inv b n) && (spec_index inv b n <? n))
              (range 256))
            [false; true])
          (range 65) = true) by (vm_compute; reflexivity).
  apply forallb_range with (i := rampLength) in Hall; [|lia].
  replace (rampLength <? 1) with false in Hall by (symmetry; apply Z.ltb_ge; lia).
  cbn [orb] in Hall.
  rewrite forallb_forall in Hall.
  specialize (Hall inverse ltac:(destruct inverse; simpl; tauto)).
  apply forallb_range with (i := b) in Hall; [|lia].
  apply andb_prop in Hall as [Hall Hhi].
  apply andb_prop in Hall as [Heq Hlo].
  apply Z.leb_le in Hlo; apply Z.ltb_lt in Hhi.
  unfold outcome_eqb in Heq.
  destruct (ramp_index inverse b rampLength) as [i| |]; try discriminate.
  apply Z.eqb_eq in Heq; subst i.
  split; [reflexivity | lia].
Qed.

(** ** Frame renderer *)

(** Whether a frame renders depends on the geometry and the gradient,
    not on its pixels: when one frame rendered, every frame of byte
    intensities renders under the same geometry. *)
Lemma ProcessFrame_any_content (ramp : str) (f f' : frame) (iw ih : Z)
    (tw th : float) (w h : Z) (inv : bool) (img : list str) :
  ProcessFrame ramp f iw ih tw th w h inv = Ok img ->
  len ramp <= 64 ->
  (forall x y, 0 <= f' x y <= 255) ->
  exists img', ProcessFrame ramp f' iw ih tw th w h inv = Ok img'.
Proof.
  intros H HN Hf'.
  apply ProcessFrame_rows in H as [_ H].
  unfold ProcessFrame.
  apply for_each_exists; intros y Hy; apply range_In in Hy.
  destruct (H y Hy) as (row & y1 & y2 & _ & -> & _ & Hcells); cbn [bind].
  apply for_each_exists; intros x Hx; apply range_In in Hx.
  destruct (Hcells x Hx) as (c & x1 & x2 & tile & b & i & _ & -> & Ht & Hb & _ & Hg).
  cbn [bind].
  destruct (sampled_tile_nonempty f x1 y1 x2 y2 b) as [Hxlt Hylt];
    [rewrite Ht; exact Hb|].
  destruct (sample_nonempty_box f' x1 y1 x2 y2 Hf' Hxlt Hylt)
    as (tile' & b' & Ht' & Hbr' & Hb').
  rewrite Ht'; cbn [bind]; rewrite Hbr'; cbn [bind].
  assert (Hlen : 1 <= len ramp).
  { apply getitem_In in Hg; unfold len; destruct ramp; [contradiction | simpl; lia]. }
  destruct (ramp_index_exact (len ramp) inv b') as [-> Hi]; [lia | lia |]; cbn [bind].
  destruct (getitem_in_range ramp (spec_index inv b' (len ramp)) Hi) as (c' & -> & _).
  eexists; reflexivity.
Qed.

(** C1.  Every character of a rendered frame is the gradient character at
    the index [round((b / 255) * (N - 1))], or
    [round((1 - b / 255) * (N - 1))] when inverted, of the brightness [b]
    sampled on its tile; brightness 0 gives the first and 255 the last
    character of the gradient, and inverting exchanges the two.  The
    gradient has at most [2^53] characters, so that [N - 1] is a float; up
    to 64 characters the index is also the exactly rounded one. *)
Theorem ProcessFrame_ramp_mapping (ramp : str) (f : frame) (iw ih : Z)
    (tw th : float) (w h : Z) (inv : bool) (img : list str) :
  len ramp <= 2 ^ 53 ->
  ProcessFrame ramp f iw ih tw th w h inv = Ok img ->
  forall x y, 0 <= x < w -> 0 <= y < h ->
    exists box tile b i c,
      tile_box iw ih tw th w h x y = Ok box /\
      crop f box = Ok tile /\
      GetAverageBrightness tile = Ok b /\
      ramp_index inv b (len ramp) = Ok i /\
      getitem ramp i = Ok c /\
      glyph_at img x y = Some c /\
      (b = 0 -> getitem ramp (if inv then len ramp - 1 else 0) = Ok c) /\
      (b = 255 -> getitem ramp (if inv then 0 else len ramp - 1) = Ok c) /\
      (0 <= b <= 255 -> len ramp <= 64 -> i = spec_index inv b (len ramp)).
Proof.
  intros HN H x y Hx Hy.
  apply ProcessFrame_rows in H as [_ H].
  destruct (H y Hy) as (row & y1 & y2 & Hrow & Hyb & _ & Hcells).
  destruct (Hcells x Hx) as (c & x1 & x2 & tile & b & i & Hc & Hxb & Ht & Hb & Hi & Hg).
  exists (x1, y1, x2, y2), tile, b, i, c.
  assert (Hlen : 1 <= len ramp).
  { apply getitem_In in Hg; unfold len; destruct ramp; [contradiction | simpl; lia]. }
  destruct (ramp_index_endpoints (len ramp)) as (E1 & E2 & E3 & E4); [lia|].
  repeat split; try assumption.
  - unfold tile_box; rewrite Hyb, Hxb; reflexivity.
  - unfold glyph_at; rewrite Hrow; exact Hc.
  - intros ->; destruct inv; cbv iota; congruence.
  - intros ->; destruct inv; cbv iota; congruence.
  - intros Hb' HN'.
    destruct (ramp_index_exact (len ramp) inv b) as [E _]; [lia | lia |].
    congruence.
Qed.

Lemma ProcessFrame_ramp_mapping_witness :
  let ramp := str_of_string "@%#*+=-:. " in
  let f : frame := fun x y => if y <? 2 then 0 else 255 in
  let img := [ [64; 64]; [32; 32] ]%N in
  len ramp <= 2 ^ 53 /\
  ProcessFrame ramp f 4 4 (exact 2) (exact 2) 2 2 false = Ok img /\
  exists box tile b i c,
    tile_box 4 4 (exact 2) (exact 2) 2 2 1 0 = Ok box /\
    crop f box = Ok tile /\
    GetAverageBrightness tile = Ok b /\
    ramp_index false b (len ramp) = Ok i /\
    getitem ramp i = Ok c /\
    glyph_at img 1 0 = Some c /\
    (b = 0 -> getitem ramp 0 = Ok c) /\
    (b = 255 -> getitem ramp (len ramp - 1) = Ok c) /\
    (0 <= b <= 255 -> len ramp <= 64 -> i = spec_index false b (len ramp)).
Proof.
  intros ramp f img.
  split; [vm_compute; discriminate|].
  split; [vm_compute; reflexivity|].
  apply (ProcessFrame_ramp_mapping ramp f 4 4 (exact 2) (exact 2) 2 2 false img).
  - vm_compute; discriminate.
  - vm_compute; reflexivity.
  - lia.
  - lia.
Defined.

(** C4.  A rendered frame has exactly [height] lines, each of exactly
    [width] characters, each taken from the gradient, whatever the pixels
    of the source frame are: under the same geometry and gradient every
    other frame of byte intensities renders too, to the same shape. *)
Theorem ProcessFrame_shape (ramp : str) (f : frame) (iw ih : Z)
    (tw th : float) (w h : Z) (inv : bool) (img : list str) :
  0 <= w -> 0 <= h ->
  ProcessFrame ramp f iw ih tw th w h inv = Ok img ->
  (len img = h /\
   Forall (fun row => len row = w /\ Forall (fun c => In c ramp) row) img) /\
  (forall f' : frame,
     len ramp <= 64 -> (forall x y, 0 <= f' x y <= 255) ->
     exists img',
       ProcessFrame ramp f' iw ih tw th w h inv = Ok img' /\
       len img' = h /\
       Forall (fun row => len row = w /\ Forall (fun c => In c ramp) row) img').
Proof.
  intros Hw Hh H.
  assert (Hshape : forall g img0,
            ProcessFrame ramp g iw ih tw th w h inv = Ok img0 ->
            len img0 = h /\
            Forall (fun row => len row = w /\ Forall (fun c => In c ramp) row) img0).
  { clear f img H; intros f img H.
    apply ProcessFrame_rows in H as [Hlen H].
    split; [unfold len; lia|].
    apply Forall_forall; intros row Hin.
    apply In_nth_error in Hin as [n Hn].
    pose proof (nth_error_lt _ _ _ Hn) as Hn'.
    destruct (H (Z.of_nat n)) as (row' & y1 & y2 & Hrow & _ & Hrl & Hcells); [lia|].
    rewrite Nat2Z.id, Hn in Hrow; injection Hrow as <-.
    split; [unfold len; lia|].
    apply Forall_forall; intros c Hc.
    apply In_nth_error in Hc as [k Hk].
    pose proof (nth_error_lt _ _ _ Hk) as Hk'.
    destruct (Hcells (Z.of_nat k))
      as (c' & x1 & x2 & tile & b & i & Hc' & _ & _ & _ & _ & Hg); [lia|].
    rewrite Nat2Z.id, Hk in Hc'; injection Hc' as <-.
    eapply getitem_In, Hg. }
  split; [exact (Hshape f img H)|].
  intros f' HN Hf'.
  destruct (ProcessFrame_any_content ramp f f' iw ih tw th w h inv img H HN Hf')
    as [img' Himg'].
  exists img'; split; [exact Himg' | exact (Hshape f' img' Himg')].
Qed.

Lemma ProcessFrame_shape_witness :
  let ramp := str_of_string "@%#*+=-:. " in
  let f : frame := fun x y => 16 * (x + y) in
  let img := [ [37; 35; 42; 61]; [42; 61; 45; 58] ]%N in
  0 <= 4 /\ 0 <= 2 /\
  ProcessFrame ramp f 8 8 (exact 2) (exact 4) 4 2 false = Ok img /\
  len img = 2 /\
  Forall (fun row => len row = 4 /\ Forall (fun c => In c ramp) row) img.
Proof.
  intros ramp f img.
  split; [lia|]. split; [lia|].
  split; [vm_compute; reflexivity|].
  apply (ProcessFrame_shape ramp f 8 8 (exact 2) (exact 4) 4 2 false img).
  - lia.
  - lia.
  - vm_compute; reflexivity.
Defined.

(** ** Tiles along one axis *)

Lemma tile_bounds_edges (ts : float) (count imgSize i lo hi : Z) :
  0 <= i < count ->
  tile_bounds i ts count imgSize = Ok (lo, hi) ->
  lo = edge ts count imgSize i /\ hi = edge ts count imgSize (i + 1).
Proof.
  intros Hi H; unfold tile_bounds in H.
  apply bind_Ok in H as (lo0 & Hlo & H).
  apply bind_Ok in H as (hi0 & Hhi & H).
  injection H as <- <-.
  unfold edge.
  replace (i =? count) with false by (symmetry; apply Z.eqb_neq; lia).
  rewrite Hlo, Hhi; split; [reflexivity|].
  destruct (i =? count - 1) eqn:E.
  - apply Z.eqb_eq in E.
    replace (i + 1 =? count) with true by (symmetry; apply Z.eqb_eq; lia).
    reflexivity.
  - apply Z.eqb_neq in E.
    replace (i + 1 =? count) with false by (symmetry; apply Z.eqb_neq; lia).
    reflexivity.
Qed.

Lemma tile_bounds_first (ts : float) (count imgSize lo hi : Z) :
  tile_bounds 0 ts count imgSize = Ok (lo, hi) -> lo = 0.
Proof.
  unfold tile_bounds; intro H.
  apply bind_Ok in H as (lo0 & Hlo & H).
  apply bind_Ok in H as (hi0 & _ & H).
  injection H as <- _.
  apply (mul_zero_l ts), Hlo.
Qed.

Lemma chain_monotone (B : Z -> Z) (n : Z) :
  (forall i, 0 <= i < n -> B i < B (i + 1)) ->
  forall i j, 0 <= i -> i <= j <= n -> B i <= B j.
Proof.
  intros Hstep i j Hi [Hij Hj].
  replace j with (i + Z.of_nat (Z.to_nat (j - i))) in * by lia.
  induction (Z.to_nat (j - i)) as [|k IH].
  - rewrite Z.add_0_r; lia.
  - rewrite Nat2Z.inj_succ in *.
    specialize (Hstep (i + Z.of_nat k) ltac:(lia)).
    replace (i + Z.succ (Z.of_nat k)) with (i + Z.of_nat k + 1) by lia.
    specialize (IH ltac:(lia) ltac:(lia)); lia.
Qed.

Lemma chain_cover (B : Z -> Z) (n p : Z) :
  0 <= n ->
  (forall i, 0 <= i < n -> B i < B (i + 1)) ->
  B 0 <= p < B n ->
  exists i, 0 <= i < n /\ B i <= p < B (i + 1).
Proof.
  intros Hn Hstep.
  replace n with (Z.of_nat (Z.to_nat n)) in * by lia.
  induction (Z.to_nat n) as [|k IH]; intros Hp; [simpl in Hp; lia|].
  rewrite Nat2Z.inj_succ in *.
  destruct (Z_lt_ge_dec p (B (Z.of_nat k))) as [Hlt|Hge].
  - destruct IH as (i & Hi & Hpi); [lia | intros; apply Hstep; lia | lia |].
    exists i; split; [lia | exact Hpi].
  - exists (Z.of_nat k); split; [lia|].
    replace (Z.of_nat k + 1) with (Z.succ (Z.of_nat k)) by lia; lia.
Qed.

Lemma chain_unique (B : Z -> Z) (n p i j : Z) :
  (forall i, 0 <= i < n -> B i < B (i + 1)) ->
  0 <= i < n -> 0 <= j < n ->
  B i <= p < B (i + 1) -> B j <= p < B (j + 1) -> i = j.
Proof.
  intros Hstep Hi Hj Hpi Hpj.
  destruct (Z.lt_trichotomy i j) as [Hlt|[Heq|Hgt]]; [exfalso|exact Heq|exfalso].
  - pose proof (chain_monotone B n Hstep (i + 1) j ltac:(lia) ltac:(lia)); lia.
  - pose proof (chain_monotone B n Hstep (j + 1) i ltac:(lia) ltac:(lia)); lia.
Qed.

(** When every tile along an axis was computed and is not empty, the edges
    run from 0 to the image size, strictly increasing, and tile [i] spans
    from edge [i] to edge [i + 1]. *)
Lemma axis_edges (ts : float) (count imgSize : Z) :
  1 <= count ->
  (forall i, 0 <= i < count ->
     exists lo hi, tile_bounds i ts count imgSize = Ok (lo, hi) /\ lo < hi) ->
  edge ts count imgSize 0 = 0 /\
  edge ts count imgSize count = imgSize /\
  forall i, 0 <= i < count ->
    tile_bounds i ts count imgSize
      = Ok (edge ts count imgSize i, edge ts count imgSize (i + 1)) /\
    edge ts count imgSize i < edge ts count imgSize (i + 1).
Proof.
  intros Hc Hall.
  assert (Hi : forall i, 0 <= i < count ->
            tile_bounds i ts count imgSize
              = Ok (edge ts count imgSize i, edge ts count imgSize (i + 1)) /\
            edge ts count imgSize i < edge ts count imgSize (i + 1)).
  { intros i Hi; destruct (Hall i Hi) as (lo & hi & Hb & Hlt).
    destruct (tile_bounds_edges _ _ _ _ _ _ Hi Hb) as [<- <-].
    split; assumption. }
  split; [|split; [|exact Hi]].
  - destruct (Hi 0 ltac:(lia)) as [Hb _].
    exact (tile_bounds_first _ _ _ _ _ Hb).
  - unfold edge; rewrite Z.eqb_refl; reflexivity.
Qed.

Lemma ProcessFrame_tiles_nonempty (ramp : str) (f : frame) (iw ih : Z)
    (tw th : float) (w h : Z) (inv : bool) (img : list str) :
  1 <= w -> 1 <= h ->
  ProcessFrame ramp f iw ih tw th w h inv = Ok img ->
  (forall y, 0 <= y < h ->
     exists lo hi, tile_bounds y th h ih = Ok (lo, hi) /\ lo < hi) /\
  (forall x, 0 <= x < w ->
     exists lo hi, tile_bounds x tw w iw = Ok (lo, hi) /\ lo < hi).
Proof.
  intros Hw Hh H.
  apply ProcessFrame_rows in H as [_ H].
  split.
  - intros y Hy.
    destruct (H y Hy) as (row & y1 & y2 & _ & Hyb & _ & Hcells).
    destruct (Hcells 0 ltac:(lia)) as (c & x1 & x2 & tile & b & i & _ & _ & Ht & Hb & _).
    exists y1, y2; split; [exact Hyb|].
    apply (sampled_tile_nonempty f x1 y1 x2 y2 b).
    rewrite Ht; exact Hb.
  - intros x Hx.
    destruct (H 0 ltac:(lia)) as (row & y1 & y2 & _ & _ & _ & Hcells).
    destruct (Hcells x Hx) as (c & x1 & x2 & tile & b & i & _ & Hxb & Ht & Hb & _).
    exists x1, x2; split; [exact Hxb|].
    apply (sampled_tile_nonempty f x1 y1 x2 y2 b).
    rewrite Ht; exact Hb.
Qed.

(** C3.  The tiles sampled for a rendered frame partition the image:
    along each axis the upper bound of a tile is the lower bound of the
    next, the first tile starts at 0, the last row ends at the image
    height and the last column at the image width, every tile lies inside
    the image, and every pixel of the image lies in exactly one tile. *)
Theorem tiles_partition_image (ramp : str) (f : frame) (iw ih : Z)
    (tw th : float) (w h : Z) (inv : bool) (img : list str) :
  1 <= w -> 1 <= h ->
  ProcessFrame ramp f iw ih tw th w h inv = Ok img ->
  bounds_meet th h ih /\
  bounds_meet tw w iw /\
  tiles_inside iw ih tw th w h /\
  exactly_one_tile iw ih tw th w h.
Proof.
  intros Hw Hh H.
  destruct (ProcessFrame_tiles_nonempty _ _ _ _ _ _ _ _ _ _ Hw Hh H) as [HY HX].
  destruct (axis_edges th h ih Hh HY) as (Y0 & Yn & Ys).
  destruct (axis_edges tw w iw Hw HX) as (X0 & Xn & Xs).
  set (Y := edge th h ih) in *.
  set (X := edge tw w iw) in *.
  assert (Ystep : forall i, 0 <= i < h -> Y i < Y (i + 1)) by (intros; apply Ys; lia).
  assert (Xstep : forall i, 0 <= i < w -> X i < X (i + 1)) by (intros; apply Xs; lia).
  assert (Hbox : forall x y, 0 <= x < w -> 0 <= y < h ->
            tile_box iw ih tw th w h x y = Ok (X x, Y y, X (x + 1), Y (y + 1))).
  { intros x y Hx Hy; unfold tile_box.
    destruct (Ys y Hy) as [-> _]; destruct (Xs x Hx) as [-> _]; reflexivity. }
  unfold bounds_meet, tiles_inside, exactly_one_tile.
  repeat split.
  - exists (Y (0 + 1)); rewrite <- Y0 at 2; apply Ys; lia.
  - intros y Hy0 Hy1; exists (Y y), (Y (y + 1)), (Y (y + 1 + 1)).
    split; apply Ys; lia.
  - exists (Y (h - 1)); rewrite <- Yn at 2.
    replace h with (h - 1 + 1) at 4 by lia; apply Ys; lia.
  - exists (X (0 + 1)); rewrite <- X0 at 2; apply Xs; lia.
  - intros x Hx0 Hx1; exists (X x), (X (x + 1)), (X (x + 1 + 1)).
    split; apply Xs; lia.
  - exists (X (w - 1)); rewrite <- Xn at 2.
    replace w with (w - 1 + 1) at 4 by lia; apply Xs; lia.
  - intros x y Hx Hy.
    exists (X x), (Y y), (X (x + 1)), (Y (y + 1)).
    pose proof (chain_monotone X w Xstep 0 x ltac:(lia) ltac:(lia)).
    pose proof (chain_monotone X w Xstep (x + 1) w ltac:(lia) ltac:(lia)).
    pose proof (chain_monotone Y h Ystep 0 y ltac:(lia) ltac:(lia)).
    pose proof (chain_monotone Y h Ystep (y + 1) h ltac:(lia) ltac:(lia)).
    pose proof (Xstep x Hx); pose proof (Ystep y Hy).
    split; [apply Hbox; assumption | lia].
  - intros px py Hpx Hpy.
    destruct (chain_cover X w px ltac:(lia) Xstep ltac:(lia)) as (x & Hx & Hxp).
    destruct (chain_cover Y h py ltac:(lia) Ystep ltac:(lia)) as (y & Hy & Hyp).
    exists x, y, (X x, Y y, X (x + 1), Y (y + 1)).
    split; [split; assumption|].
    split; [apply Hbox; assumption|].
    split; [simpl; split; assumption|].
    intros x' y' box' Hx' Hy' Hb' Hin.
    rewrite (Hbox x' y' Hx' Hy') in Hb'; injection Hb' as <-.
    destruct Hin as [Hinx Hiny].
    split.
    + exact (chain_unique X w px x' x Xstep Hx' Hx Hinx Hxp).
    + exact (chain_unique Y h py y' y Ystep Hy' Hy Hiny Hyp).
Qed.

Lemma tiles_partition_image_witness :
  let ramp := str_of_string "@%#*+=-:. " in
  let f : frame := fun x y => 50 * x + y in
  let tile := SFdiv prec emax (exact 5) (exact 2) in
  1 <= 2 /\ 1 <= 2 /\
  ProcessFrame ramp f 5 5 tile tile 2 2 false = Ok [ [37; 61]; [37; 61] ]%N /\
  tile_box 5 5 tile tile 2 2 1 1 = Ok (2, 2, 5, 5) /\
  bounds_meet tile 2 5 /\
  exactly_one_tile 5 5 tile tile 2 2.
Proof.
  intros ramp f tile.
  split; [lia|]. split; [lia|].
  split; [vm_compute; reflexivity|].
  split; [vm_compute; reflexivity|].
  refine ((fun H => conj (proj1 H) (proj2 (proj2 (proj2 H))))
            (tiles_partition_image ramp f 5 5 tile tile 2 2 false
               [ [37; 61]; [37; 61] ]%N _ _ _)).
  - lia.
  - lia.
  - vm_compute; reflexivity.
Defined.

(** ** Grid geometry resolver *)

(** The run of [GetFrameData] once its three float computations are
    defined. *)
Lemma GetFrameData_run (sw sh ow : Z) (scale tw th : float) (h : Z) (w : world) :
  int_truediv sw ow = Ok tw ->
  truediv tw scale = Ok th ->
  (q <- int_div_float sh th ;; to_int q) = Ok h ->
  GetFrameData (sw, sh) ow scale w =
    if (sw <? ow) || (h <? 1)
    then (Exit 1, say w (geometry_report sw sh tw th h ++ [too_small_message]))
    else (Ok (sw, sh, tw, th, h), say w (geometry_report sw sh tw th h)).
Proof.
  intros Htw Hth Hh.
  unfold GetFrameData, io_bind, lift, print, emit, exit, ret.
  cbn [fst snd files stdout]; rewrite Htw, Hth, Hh.
  unfold say, geometry_report, too_small_message.
  destruct ((sw <? ow) || (h <? 1)); cbn [files stdout];
    rewrite <- ?app_assoc; reflexivity.
Qed.

(** What a returned geometry tells about the inputs. *)
Lemma GetFrameData_Ok (sz : Z * Z) (ow : Z) (scale : float) (w w' : world)
    (iw ih : Z) (tw th : float) (h : Z) :
  GetFrameData sz ow scale w = (Ok (iw, ih, tw, th, h), w') ->
  sz = (iw, ih) /\
  int_truediv iw ow = Ok tw /\
  truediv tw scale = Ok th /\
  (q <- int_div_float ih th ;; to_int q) = Ok h /\
  ow <= iw /\ 1 <= h /\
  w' = say w (geometry_report iw ih tw th h).
Proof.
  destruct sz as [sw sh].
  unfold GetFrameData, io_bind, lift, print, emit, exit, ret.
  cbn [fst snd files stdout].
  destruct (int_truediv sw ow) as [tw0| |] eqn:Htw; try discriminate.
  destruct (truediv tw0 scale) as [th0| |] eqn:Hth; try discriminate.
  destruct (q <- int_div_float sh th0 ;; to_int q) as [h0| |] eqn:Hh; try discriminate.
  destruct ((sw <? ow) || (h0 <? 1)) eqn:E; try discriminate.
  apply orb_false_iff in E as [E1 E2]; apply Z.ltb_ge in E1, E2.
  intro H; injection H as <- <- <- <- <- <-.
  repeat split; try assumption; try lia.
  unfold say, geometry_report; cbn [files stdout]; rewrite <- ?app_assoc; reflexivity.
Qed.

Lemma binary_round_aux_sign (m e : Z) (l : location) :
  sign_clear (binary_round_aux prec emax false m e l).
Proof.
  unfold binary_round_aux.
  destruct (shr_fexp prec emax m e l) as [mrs e1].
  destruct (shr_fexp prec emax _ e1 loc_Exact) as [mrs2 e2].
  destruct (shr_m mrs2); [reflexivity| |exact I].
  destruct (e2 <=? emax - prec); reflexivity.
Qed.

Lemma SFdiv_sign (x y : float) :
  sign_clear x -> sign_clear y -> sign_clear (SFdiv prec emax x y).
Proof.
  destruct x as [sx|sx| |sx mx ex], y as [sy|sy| |sy my ey];
    cbn [sign_clear SFdiv]; intros Hx Hy; subst; try reflexivity; try exact I.
  destruct (SFdiv_core_binary prec emax (Zpos mx) ex (Zpos my) ey) as [[mz ez] lz].
  apply binary_round_aux_sign.
Qed.

Lemma exact_sign (n : Z) : 0 <= n -> sign_clear (exact n).
Proof. destruct n; simpl; intros; try reflexivity; lia. Qed.

Lemma overflow_check_Ok (x y : float) : overflow_check x = Ok y -> y = x.
Proof. destruct x; simpl; intro H; try discriminate; now injection H. Qed.

Lemma of_int_sign (n : Z) (x : float) : 0 <= n -> of_int n = Ok x -> sign_clear x.
Proof.
  intros Hn H; apply overflow_check_Ok in H as ->.
  destruct n as [|p|p]; [reflexivity| |lia].
  unfold binary_normalize, binary_round.
  destruct (shl_align _ _ _) as [mz ez].
  apply binary_round_aux_sign.
Qed.

Lemma is_positive_sign (x : float) :
  is_positive x = true -> sign_clear x /\ is_zero x = false.
Proof.
  destruct x as [s|[|]| |[|] m e]; cbn; intro H; try discriminate; split; reflexivity.
Qed.

Lemma floor_to_int (x : float) : sign_clear x -> floor x = to_int x.
Proof. destruct x; simpl; intros; subst; reflexivity. Qed.

(** Rounding never turns a mantissa that is not negative into something
    that is not a number. *)
Lemma shr_1_nonneg (mrs : shr_record) : 0 <= shr_m mrs -> 0 <= shr_m (shr_1 mrs).
Proof. destruct mrs as [[|[p|p|]|p] r s]; cbn; lia. Qed.

Lemma iter_shr_1_nonneg (p : positive) :
  forall mrs, 0 <= shr_m mrs -> 0 <= shr_m (iter_pos shr_1 p mrs).
Proof.
  induction p as [p IH|p IH|]; intros mrs H; cbn [iter_pos].
  - apply IH, IH, shr_1_nonneg, H.
  - apply IH, IH, H.
  - apply shr_1_nonneg, H.
Qed.

Lemma shr_fexp_nonneg (m e : Z) (l : location) :
  0 <= m -> 0 <= shr_m (fst (shr_fexp prec emax m e l)).
Proof.
  intro H; unfold shr_fexp, shr.
  assert (H0 : 0 <= shr_m (shr_record_of_loc m l)) by (destruct l as [|[]]; exact H).
  destruct (fexp prec emax (Zdigits2 m + e) - e); cbn [fst];
    [exact H0 | apply iter_shr_1_nonneg, H0 | exact H0].
Qed.

Lemma binary_round_aux_number (s : bool) (m e : Z) (l : location) :
  0 <= m -> binary_round_aux prec emax s m e l <> S754_nan.
Proof.
  intro H; unfold binary_round_aux.
  pose proof (shr_fexp_nonneg m e l H) as H1.
  destruct (shr_fexp prec emax m e l) as [mrs1 e1]; cbn [fst] in H1.
  assert (H2 : 0 <= round_nearest_even (shr_m mrs1) (loc_of_shr_record mrs1)).
  { unfold round_nearest_even.
    destruct (loc_of_shr_record mrs1) as [|[]]; try destruct (Z.even _); lia. }
  pose proof (shr_fexp_nonneg _ e1 loc_Exact H2) as H3.
  destruct (shr_fexp prec emax _ e1 loc_Exact) as [mrs2 e2]; cbn [fst] in H3.
  destruct (shr_m mrs2); [discriminate | destruct (_ <=? _); discriminate | lia].
Qed.

(** A quotient is a number unless it is 0/0 or inf/inf. *)
Lemma SFdiv_number (x y : float) :
  x <> S754_nan -> y <> S754_nan ->
  is_zero x && is_zero y = false ->
  is_infinite x && is_infinite y = false ->
  SFdiv prec emax x y <> S754_nan.
Proof.
  destruct x as [sx|sx| |sx mx ex], y as [sy|sy| |sy my ey];
    cbn [SFdiv is_zero is_infinite andb]; intros Hx Hy Hz Hi;
    try congruence; try discriminate.
  unfold SFdiv_core_binary.
  set (m' := match _ - _ - _ with Z0 => Zpos mx | Zpos _ => _ | Zneg _ => 0 end).
  assert (Hm : 0 <= m').
  { subst m'; destruct (_ - _ - _); [lia | apply Z.shiftl_nonneg; lia | lia]. }
  pose proof (Z.div_pos m' (Zpos my) Hm ltac:(lia)) as Hq.
  unfold Z.div in Hq.
  destruct (Z.div_eucl m' (Zpos my)) as [q0 r0]; cbn [fst] in Hq.
  apply binary_round_aux_number, Hq.
Qed.

Lemma of_int_number (n : Z) (x : float) :
  of_int n = Ok x ->
  x = binary_normalize prec emax n 0 false /\
  x <> S754_nan /\ is_infinite x = false.
Proof.
  intro H; apply overflow_check_Ok in H as Hx; subst x.
  split; [reflexivity|]; split.
  - destruct n as [|p|p]; cbn [binary_normalize]; [discriminate | |];
      unfold binary_round; destruct (shl_align _ _ _) as [mz ez];
      apply binary_round_aux_number; lia.
  - unfold of_int in H.
    destruct (binary_normalize prec emax n 0 false); try reflexivity; discriminate.
Qed.

Lemma int_truediv_number (a b : Z) (x : float) :
  b <> 0 -> int_truediv a b = Ok x ->
  x = SFdiv prec emax (exact a) (exact b) /\
  x <> S754_nan /\ is_infinite x = false.
Proof.
  intros Hb H; unfold int_truediv in H.
  replace (b =? 0) with false in H by (symmetry; apply Z.eqb_neq; exact Hb).
  apply overflow_check_Ok in H as Hx; subst x.
  split; [reflexivity|]; split.
  - apply SFdiv_number.
    + destruct a; discriminate.
    + destruct b; discriminate.
    + destruct b; [congruence | apply andb_false_r ..].
    + destruct a; reflexivity.
  - destruct (SFdiv prec emax (exact a) (exact b)); try reflexivity; discriminate.
Qed.

(** The run of the resolver when the row count cannot be computed. *)
Lemma GetFrameData_rows_fail (sw sh ow : Z) (scale tw th : float) (e : exn)
    (w : world) :
  int_truediv sw ow = Ok tw ->
  truediv tw scale = Ok th ->
  (q <- int_div_float sh th ;; to_int q) = Raise e ->
  GetFrameData (sw, sh) ow scale w
  = (Raise e, say w [image_size_line sw sh; PrintTileSize tw th]).
Proof.
  intros Htw Hth Hh.
  unfold GetFrameData, io_bind, lift, print, emit, exit, ret.
  cbn [fst snd files stdout]; rewrite Htw, Hth, Hh.
  unfold say, image_size_line; cbn [files stdout]; rewrite <- ?app_assoc; reflexivity.
Qed.

Lemma to_int_nonneg (x : float) (n : Z) : sign_clear x -> to_int x = Ok n -> 0 <= n.
Proof.
  destruct x as [s|s| |s m e]; cbn; intros Hs H; try discriminate.
  - injection H as <-; lia.
  - subst s; injection H as <-; cbn [apply_sign]; apply Z.shiftl_nonneg; lia.
Qed.

(** C2, as the code has it.  The resolver computes in binary64: the tile
    width is the correctly rounded quotient of the two integers, the tile
    height the rounded quotient of the tile width by the scale, and the row
    count the floor of the rounded quotient [q] of the image height by the
    tile height.  For an image whose sizes are floats, exactly one of three
    things happens: a tile height of zero ends the run with
    [ZeroDivisionError]; an infinite [q] ends it with [OverflowError];
    otherwise the row count [floor q] is defined and not negative, and the
    resolver leaves with status 1 and the message that the image is too
    small exactly when [sourceWidth < outputWidthChars] or
    [outputHeightChars < 1], and returns the geometry otherwise. *)
Theorem GetFrameData_resolves (sw sh ow : Z) (scale : float) (w : world)
    (tw fsh : float) :
  0 <= sw -> 0 <= sh -> 1 <= ow -> is_positive scale = true ->
  int_truediv sw ow = Ok tw ->
  of_int sh = Ok fsh ->
  let th := SFdiv prec emax tw scale in
  let q := SFdiv prec emax fsh th in
  tw = SFdiv prec emax (exact sw) (exact ow) /\
  fsh = binary_normalize prec emax sh 0 false /\
  (is_zero th = true ->
     GetFrameData (sw, sh) ow scale w
     = (Raise ZeroDivisionError,
        say w [image_size_line sw sh; PrintTileSize tw th])) /\
  (is_zero th = false -> is_infinite q = true ->
     GetFrameData (sw, sh) ow scale w
     = (Raise OverflowError,
        say w [image_size_line sw sh; PrintTileSize tw th])) /\
  (is_zero th = false -> is_infinite q = false ->
     exists h,
       floor q = Ok h /\ 0 <= h /\
       (sw < ow \/ h < 1 ->
          GetFrameData (sw, sh) ow scale w
          = (Exit 1, say w (geometry_report sw sh tw th h ++ [too_small_message]))) /\
       (~ (sw < ow \/ h < 1) ->
          GetFrameData (sw, sh) ow scale w
          = (Ok (sw, sh, tw, th, h), say w (geometry_report sw sh tw th h)))).
Proof.
  intros Hsw Hsh How Hpos Htw Hfsh th q.
  destruct (int_truediv_number sw ow tw ltac:(lia) Htw) as (Etw & Ntw & Itw).
  destruct (of_int_number sh fsh Hfsh) as (Efsh & Nfsh & Ifsh).
  pose proof (is_positive_sign scale Hpos) as [Hs Hz].
  assert (Hdiv : truediv tw scale = Ok th)
    by (unfold truediv; rewrite Hz; reflexivity).
  assert (Htws : sign_clear tw)
    by (rewrite Etw; apply SFdiv_sign; apply exact_sign; lia).
  assert (Hths : sign_clear th) by (apply SFdiv_sign; assumption).
  assert (Hfshs : sign_clear fsh) by (eapply of_int_sign; eassumption).
  assert (Hqs : sign_clear q) by (apply SFdiv_sign; assumption).
  assert (Nscale : scale <> S754_nan) by (destruct scale; discriminate).
  assert (Nth : th <> S754_nan).
  { apply SFdiv_number; try assumption.
    - rewrite Hz; apply andb_false_r.
    - rewrite Itw; reflexivity. }
  split; [exact Etw|]. split; [exact Efsh|].
  split; [|split].
  - intro Hzero.
    apply (GetFrameData_rows_fail sw sh ow scale tw th); try assumption.
    unfold int_div_float; rewrite Hfsh; cbn [bind].
    unfold truediv; rewrite Hzero; reflexivity.
  - intros Hnz Hinf.
    apply (GetFrameData_rows_fail sw sh ow scale tw th); try assumption.
    unfold int_div_float; rewrite Hfsh; cbn [bind].
    unfold truediv; rewrite Hnz; cbn [bind].
    fold q; destruct q; try discriminate; reflexivity.
  - intros Hnz Hfin.
    assert (Nq : q <> S754_nan).
    { apply SFdiv_number; try assumption.
      - rewrite Hnz; apply andb_false_r.
      - rewrite Ifsh; reflexivity. }
    assert (Hh : exists h, to_int q = Ok h).
    { destruct q; try discriminate; try congruence; eexists; reflexivity. }
    destruct Hh as [h Hh].
    assert (Hrows : (q0 <- int_div_float sh th ;; to_int q0) = Ok h).
    { unfold int_div_float; rewrite Hfsh; cbn [bind].
      unfold truediv; rewrite Hnz; cbn [bind]; exact Hh. }
    pose proof (GetFrameData_run sw sh ow scale tw th h w Htw Hdiv Hrows) as Hrun.
    exists h.
    split; [rewrite floor_to_int; assumption|].
    split; [exact (to_int_nonneg q h Hqs Hh)|].
    split.
    + intros Hsmall; rewrite Hrun.
      replace ((sw <? ow) || (h <? 1)) with true; [reflexivity|].
      symmetry; apply orb_true_iff.
      destruct Hsmall; [left; apply Z.ltb_lt | right; apply Z.ltb_lt]; assumption.
    + intros Hfit; rewrite Hrun.
      replace ((sw <? ow) || (h <? 1)) with false; [reflexivity|].
      symmetry; apply orb_false_iff; split; apply Z.ltb_ge; lia.
Qed.

Lemma GetFrameData_resolves_witness :
  let scale := half in
  let tw := SFdiv prec emax (exact 160) (exact 10) in
  let fsh := binary_normalize prec emax 100 0 false in
  let th := SFdiv prec emax tw scale in
  let q := SFdiv prec emax fsh th in
  0 <= 160 /\ 0 <= 100 /\ 1 <= 10 /\ is_positive scale = true /\
  int_truediv 160 10 = Ok tw /\
  of_int 100 = Ok fsh /\
  is_zero th = false /\ is_infinite q = false /\
  floor q = Ok 3 /\
  GetFrameData (160, 100) 10 scale empty_world
  = (Ok (160, 100, tw, th, 3), say empty_world (geometry_report 160 100 tw th 3)).
Proof.
  intros scale tw fsh th q.
  assert (H1 : 0 <= 160) by lia.
  assert (H2 : 0 <= 100) by lia.
  assert (H3 : 1 <= 10) by lia.
  assert (H4 : is_positive scale = true) by (vm_compute; reflexivity).
  assert (H5 : int_truediv 160 10 = Ok tw) by (vm_compute; reflexivity).
  assert (H6 : of_int 100 = Ok fsh) by (vm_compute; reflexivity).
  assert (H7 : is_zero th = false) by (vm_compute; reflexivity).
  assert (H8 : is_infinite q = false) by (vm_compute; reflexivity).
  assert (H9 : floor q = Ok 3) by (vm_compute; reflexivity).
  repeat (split; [assumption|]).
  destruct (GetFrameData_resolves 160 100 10 scale empty_world tw fsh
              H1 H2 H3 H4 H5 H6)
    as (_ & _ & _ & _ & Hmain).
  destruct (Hmain H7 H8) as (h & Hfloor & _ & _ & Hret).
  assert (Hh : Ok 3 = Ok h :> outcome Z) by (rewrite <- H9; exact Hfloor).
  injection Hh as <-; apply Hret; lia.
Defined.

(** Two runs that depart from the resolver of the specification.  At scale
    0.5 a 220 x 220 image at width 100 gets 49 rows: the tile width 2.2 and
    the tile height 4.4 are rounded, the quotient is just below 50, and the
    exact value is 50.  At scale 1e308, which the command line accepts, the
    tile height of a 100 x 100 image at width 100 is about 1e-308, the
    quotient [100 / tileHeight] overflows to infinity and [int] raises: the
    resolver neither returns a geometry nor leaves with the too-small
    message. *)
Lemma GetFrameData_rounding_and_overflow :
  (is_positive half = true /\
   exact_rows 220 220 100 half = Some 50 /\
   exists tw th,
     fst (GetFrameData (220, 220) 100 half empty_world)
     = Ok (220, 220, tw, th, 49)) /\
  (let scale := S754_finite false 5010420900022432 971 in
   of_int (10 ^ 308) = Ok scale /\
   is_positive scale = true /\
   fst (GetFrameData (100, 100) 100 scale empty_world) = Raise OverflowError /\
   ~ ((exists r w', GetFrameData (100, 100) 100 scale empty_world = (Ok r, w')) \/
      (exists w', GetFrameData (100, 100) 100 scale empty_world = (Exit 1, w')))).
Proof.
  split.
  - split; [vm_compute; reflexivity|].
    split; [vm_compute; reflexivity|].
    eexists; eexists; vm_compute; reflexivity.
  - intros scale.
    assert (Hrun : fst (GetFrameData (100, 100) 100 scale empty_world)
                   = Raise OverflowError) by (vm_compute; reflexivity).
    split; [vm_compute; reflexivity|].
    split; [vm_compute; reflexivity|].
    split; [exact Hrun|].
    intros [(r & w' & H)|(w' & H)];
      apply (f_equal fst) in H; cbn [fst] in H; congruence.
Qed.

(** ** A geometry the resolver accepts and the renderer cannot sample *)

Lemma range_head (n : Z) : 1 <= n -> exists rest, range n = 0 :: rest.
Proof.
  intro H; unfold range.
  destruct (Z.to_nat n) as [|k] eqn:E; [lia|].
  simpl; eexists; reflexivity.
Qed.

(** The renderer stops at its first tile when that tile cannot be
    sampled. *)
Lemma ProcessFrame_first_tile (ramp : str) (f : frame) (iw ih : Z)
    (tw th : float) (w h : Z) (inv : bool) (x1 y1 x2 y2 : Z) (e : exn) :
  1 <= w -> 1 <= h ->
  tile_bounds 0 th h ih = Ok (y1, y2) ->
  tile_bounds 0 tw w iw = Ok (x1, x2) ->
  (tile <- crop f (x1, y1, x2, y2) ;; GetAverageBrightness tile) = Raise e ->
  ProcessFrame ramp f iw ih tw th w h inv = Raise e.
Proof.
  intros Hw Hh Hy Hx Hb.
  unfold ProcessFrame.
  destruct (range_head h Hh) as [ys ->].
  destruct (range_head w Hw) as [xs ->].
  cbn [for_each]; rewrite Hy; cbn [bind]; rewrite Hx; cbn [bind].
  destruct (crop f (x1, y1, x2, y2)) as [tile| |]; cbn [bind] in *.
  - rewrite Hb; reflexivity.
  - injection Hb as <-; reflexivity.
  - discriminate.
Qed.

(** C6.  The resolver accepts a 10 x 10 image at width 10 and scale 2.0:
    the tile height is 0.5 and there are 20 rows.  The first tile is then
    the box (0, 0, 1, 0), which has no pixel, and the sampler divides by
    zero whatever the frame, the gradient and the orientation are. *)
Theorem zero_area_tile_accepted (ramp : str) (f : frame) (inv : bool) (w : world) :
  let scale := S754_finite false 4503599627370496 (-51) in
  let half := S754_finite false 4503599627370496 (-53) in
  is_positive scale = true /\
  fst (GetFrameData (10, 10) 10 scale w) = Ok (10, 10, one, half, 20) /\
  tile_box 10 10 one half 10 20 0 0 = Ok (0, 0, 1, 0) /\
  crop f (0, 0, 1, 0) = Ok [] /\
  ProcessFrame ramp f 10 10 one half 10 20 inv = Raise ZeroDivisionError.
Proof.
  intros scale half.
  split; [reflexivity|].
  split.
  { rewrite (GetFrameData_run 10 10 10 scale one half 20 w);
      [reflexivity | vm_compute; reflexivity ..]. }
  split; [vm_compute; reflexivity|].
  split; [reflexivity|].
  apply (ProcessFrame_first_tile ramp f 10 10 one half 10 20 inv 0 0 1 0);
    try lia; vm_compute; reflexivity.
Qed.

(** ** Playback driver *)

Lemma PrintFrame_run (asciiImg : list str) (w : world) :
  PrintFrame asciiImg w = (Ok tt, say w (map Print asciiImg)).
Proof.
  unfold PrintFrame; revert w.
  induction asciiImg as [|line rest IH]; intro w; cbn [io_for_each map].
  - unfold ret, say; rewrite app_nil_r; destruct w; reflexivity.
  - unfold io_bind, print, emit; rewrite IH.
    unfold say; cbn [files stdout]; rewrite <- app_assoc; reflexivity.
Qed.

Lemma SaveFrame_run (g : globals) (asciiImg : list str) (filename : string)
    (frameNumber : Z) (mode : write_mode) (w : world) :
  exists w',
    SaveFrame g asciiImg filename frameNumber mode w = (Ok tt, w') /\
    stdout w' = stdout w /\
    (forall p, p <> output_path g filename -> files w' p = files w p) /\
    files w' (output_path g filename)
      = Some ((match mode with mode_w => [] | mode_a => content w (output_path g filename) end)
              ++ frame_block asciiImg frameNumber).
Proof.
  unfold SaveFrame, write_file, content; eexists; split; [reflexivity|].
  cbn [files stdout]; split; [reflexivity|]; split.
  - intros p Hp; apply String.eqb_neq in Hp; rewrite Hp; reflexivity.
  - rewrite String.eqb_refl; reflexivity.
Qed.

Lemma indexed_shift {A : Type} (l : list A) (k : nat) :
  combine (map Z.of_nat (seq k (List.length l))) l
  = map (fun '(i, a) => (i + Z.of_nat k, a)) (indexed l).
Proof.
  unfold indexed, range, len; rewrite Nat2Z.id.
  revert k; induction l as [|a l IH]; intro k; [reflexivity|].
  cbn [List.length seq map combine]; f_equal.
  rewrite (IH (S k)), (IH 1%nat), map_map.
  apply map_ext; intros [i b]; f_equal; lia.
Qed.

Lemma indexed_cons {A : Type} (a : A) (l : list A) :
  indexed (a :: l) = (0, a) :: map (fun '(i, b) => (i + 1, b)) (indexed l).
Proof.
  unfold indexed at 1, range, len; rewrite Nat2Z.id.
  cbn [List.length seq map combine]; f_equal.
  apply (indexed_shift l 1).
Qed.

(** The loop of continuous mode over frames that all render. *)
Lemma continuous_loop (g : globals) (videoName : string) (total : Z)
    (iw ih : Z) (tw th : float) (width h : Z) (inverse : bool)
    (fs : list frame) (asciiImgs : list (list str)) :
  Forall2 (fun grayscale asciiImg =>
             ProcessFrame (GRAYSCALE_CHARS g) grayscale iw ih tw th width h inverse
             = Ok asciiImg) fs asciiImgs ->
  forall (ks : list Z) (w : world),
    io_for_each (fun '(tell, grayscale) =>
      print (str_of_string "Frame number: " ++ str_of_int tell) ;;;
      asciiImg <~ lift (ProcessFrame (GRAYSCALE_CHARS g) grayscale iw ih
                          tw th width h inverse) ;;
      if SAVE_ENABLED g then
        SaveFrame g asciiImg videoName tell mode_a
      else
        PrintFrame asciiImg ;;;
        if negb (tell =? total - 1) then
          emit (Write ([27%N] ++ str_of_string "[" ++ str_of_int (len asciiImg + 1)
                       ++ str_of_string "A"))
        else ret tt)
      (combine ks fs) w
    = (Ok tt,
       fold_left (fun w0 '(tell, asciiImg) => played g videoName total w0 tell asciiImg)
                 (combine ks asciiImgs) w).
Proof.
  induction 1 as [|f img fs imgs Hf _ IH]; intros ks w.
  - destruct ks; reflexivity.
  - destruct ks as [|k ks]; [reflexivity|].
    cbn [combine io_for_each fold_left].
    unfold io_bind at 1.
    match goal with
    | |- (let (o, w') := ?step w in _) = _ =>
        assert (Hstep : step w = (Ok tt, played g videoName total w k img))
    end.
    { unfold io_bind, print, emit, lift, played; rewrite Hf.
      fold (say w [Print (str_of_string "Frame number: " ++ str_of_int k)]).
      destruct (SAVE_ENABLED g).
      - destruct (SaveFrame_run g img videoName k mode_a
                    (say w [Print (str_of_string "Frame number: " ++ str_of_int k)]))
          as (w' & -> & _); reflexivity.
      - rewrite PrintFrame_run.
        destruct (k =? total - 1); cbn [negb]; unfold ret, say; cbn [files stdout];
          rewrite ?app_nil_r, <- ?app_assoc; reflexivity. }
    rewrite Hstep; apply IH.
Qed.

Lemma played_content (g : globals) (videoName : string) (total : Z) (w : world)
    (tell : Z) (asciiImg : list str) :
  SAVE_ENABLED g = true ->
  files (played g videoName total w tell asciiImg) (output_path g videoName)
  = Some (content w (output_path g videoName) ++ frame_block asciiImg tell).
Proof.
  intro Hs; unfold played; rewrite Hs.
  destruct (SaveFrame_run g asciiImg videoName tell mode_a
              (say w [Print (str_of_string "Frame number: " ++ str_of_int tell)]))
    as (w' & -> & _ & _ & Hfile).
  exact Hfile.
Qed.

Lemma played_fold_content (g : globals) (videoName : string) (total : Z)
    (l : list (Z * list str)) (w : world) :
  SAVE_ENABLED g = true ->
  content (fold_left (fun w0 '(tell, asciiImg) => played g videoName total w0 tell asciiImg)
                     l w) (output_path g videoName)
  = content w (output_path g videoName)
    ++ List.concat (map (fun '(tell, asciiImg) => frame_block asciiImg tell) l).
Proof.
  intro Hs; revert w.
  induction l as [|[k img] l IH]; intro w; cbn [fold_left map List.concat].
  - now rewrite app_nil_r.
  - rewrite IH.
    assert (Hstep : content (played g videoName total w k img) (output_path g videoName)
                    = content w (output_path g videoName) ++ frame_block img k)
      by (unfold content at 1; rewrite played_content by assumption; reflexivity).
    now rewrite Hstep, app_assoc.
Qed.

Lemma played_fold_exists (g : globals) (videoName : string) (total : Z)
    (l : list (Z * list str)) (w : world) :
  SAVE_ENABLED g = true ->
  l <> [] \/ files w (output_path g videoName) <> None ->
  files (fold_left (fun w0 '(tell, asciiImg) => played g videoName total w0 tell asciiImg)
                   l w) (output_path g videoName) <> None.
Proof.
  intro Hs; revert w.
  induction l as [|[k img] l IH]; intros w H; cbn [fold_left].
  - destruct H as [H|H]; [congruence | exact H].
  - apply IH; right; rewrite played_content by assumption; discriminate.
Qed.

(** *** Runs on a resolved geometry *)

Section Resolved.

Variables (g : globals) (im : image) (videoPath : string).
Variables (width : Z) (scale : float) (inverse : bool).
Variables (w w1 : world) (iw ih : Z) (tw th : float) (h : Z).

(** The resolver accepted the first frame and returned the geometry. *)
Hypothesis resolved :
  GetFrameData (size im) width scale w = (Ok (iw, ih, tw, th, h), w1).

Local Abbreviation path := (output_path g (video_name videoPath)).
Local Abbreviation run frameToPrint :=
  (ProcessGif g im videoPath width scale frameToPrint inverse w).
Local Abbreviation render grayscale :=
  (ProcessFrame (GRAYSCALE_CHARS g) grayscale iw ih tw th width h inverse).
Local Abbreviation rendered asciiImgs :=
  (all_render g im width inverse (iw, ih, tw, th, h) asciiImgs).

Lemma ProcessGif_continuous (asciiImgs : list (list str)) :
  rendered asciiImgs ->
  run 0 = (Ok tt, played_all g (video_name videoPath) (n_frames im) w1 asciiImgs).
Proof.
  intros Hall; unfold all_render in Hall.
  unfold ProcessGif, io_bind at 1; rewrite resolved.
  cbn [Z.eqb negb].
  unfold played_all, indexed.
  replace (len asciiImgs) with (len (frames im))
    by (unfold len; now rewrite (Forall2_length Hall)).
  apply continuous_loop, Hall.
Qed.

Lemma ProcessGif_out_of_range (frameToPrint : Z) :
  frameToPrint <> 0 ->
  frameToPrint - 1 < 0 \/ n_frames im <= frameToPrint - 1 ->
  run frameToPrint
  = (Exit 1, say w1 [out_of_range_message frameToPrint (n_frames im)]).
Proof.
  intros Hnz Hout.
  unfold ProcessGif, io_bind at 1; rewrite resolved.
  replace (frameToPrint =? 0) with false by (symmetry; apply Z.eqb_neq; assumption).
  cbn [negb].
  replace ((frameToPrint - 1 <? 0) || (n_frames im <=? frameToPrint - 1)) with true.
  - reflexivity.
  - symmetry; apply orb_true_iff.
    destruct Hout; [left; apply Z.ltb_lt | right; apply Z.leb_le]; assumption.
Qed.

Lemma ProcessGif_single_frame (frameToPrint : Z) (grayscale : frame)
    (asciiImg : list str) :
  1 <= frameToPrint <= n_frames im ->
  nth_error (frames im) (Z.to_nat (frameToPrint - 1)) = Some grayscale ->
  render grayscale = Ok asciiImg ->
  run frameToPrint
  = (if negb (SAVE_ENABLED g) then PrintFrame asciiImg
     else SaveFrame g asciiImg (video_name videoPath) (frameToPrint - 1) mode_w) w1.
Proof.
  intros Hk Hnth Hf.
  unfold ProcessGif, io_bind at 1; rewrite resolved.
  replace (frameToPrint =? 0) with false by (symmetry; apply Z.eqb_neq; lia).
  cbn [negb].
  replace ((frameToPrint - 1 <? 0) || (n_frames im <=? frameToPrint - 1)) with false
    by (symmetry; apply orb_false_iff; split; [apply Z.ltb_ge | apply Z.leb_gt]; lia).
  destruct (getitem_in_range (frames im) (frameToPrint - 1)) as (f & Hget & Hf');
    [unfold n_frames in Hk; lia|].
  rewrite Hnth in Hf'; injection Hf' as <-.
  unfold io_bind, lift; rewrite Hget, Hf; reflexivity.
Qed.

(** In continuous mode with saving on, the file ends up holding what it
    held before, followed by one block per frame in order. *)
Lemma continuous_save_content (asciiImgs : list (list str)) :
  SAVE_ENABLED g = true ->
  rendered asciiImgs ->
  content (snd (run 0)) path = content w path ++ frame_blocks asciiImgs.
Proof.
  intros Hs Hall.
  rewrite (ProcessGif_continuous asciiImgs Hall); cbn [snd].
  unfold played_all; rewrite played_fold_content by assumption.
  destruct (GetFrameData_Ok _ _ _ _ _ _ _ _ _ _ resolved) as (_ & _ & _ & _ & _ & _ & ->).
  reflexivity.
Qed.

(** When there is at least one frame the file exists after the run. *)
Lemma continuous_save_file (asciiImgs : list (list str)) :
  SAVE_ENABLED g = true ->
  rendered asciiImgs ->
  asciiImgs <> [] ->
  files (snd (run 0)) path = Some (content w path ++ frame_blocks asciiImgs).
Proof.
  intros Hs Hall Hne.
  pose proof (continuous_save_content asciiImgs Hs Hall) as Hc.
  assert (Hex : files (snd (run 0)) path <> None).
  { rewrite (ProcessGif_continuous asciiImgs Hall); cbn [snd].
    apply played_fold_exists; [assumption|].
    left; unfold indexed, range.
    destruct asciiImgs; [congruence|].
    unfold len; rewrite Nat2Z.id; discriminate. }
  unfold content in Hc at 1.
  destruct (files _ _) as [text|]; [|congruence].
  now rewrite Hc.
Qed.

(** C7, as the code has it.  In continuous mode with saving on, every
    frame, the first one included, is written in append mode: the file is
    created when it is absent and is never truncated.  Each frame adds one
    block, a marker line followed by the content lines, so the file holds
    what it held before the run followed by the frames of the run in
    order; it holds exactly the frames of the run when it was absent or
    empty before. *)
Theorem continuous_save_appends (asciiImgs : list (list str)) :
  SAVE_ENABLED g = true ->
  rendered asciiImgs ->
  content (snd (run 0)) path = content w path ++ frame_blocks asciiImgs /\
  (asciiImgs <> [] ->
     files (snd (run 0)) path = Some (content w path ++ frame_blocks asciiImgs)) /\
  (content w path = [] -> content (snd (run 0)) path = frame_blocks asciiImgs) /\
  (forall asciiImg tell,
     frame_block asciiImg tell
     = (str_of_string "Frame " ++ str_of_int tell ++ newline)
       ++ List.concat (map (fun line => line ++ newline) asciiImg)).
Proof.
  intros Hs Hall.
  pose proof (continuous_save_content asciiImgs Hs Hall) as Hc.
  split; [exact Hc|].
  split; [|split].
  - intro Hne; apply continuous_save_file; assumption.
  - intro Hempty; now rewrite Hc, Hempty.
  - reflexivity.
Qed.

(** C8, as the code has it.  Once the geometry is resolved, a requested
    frame index that is negative or larger than the number of frames ends
    the run with status 1, and the last line printed names the requested
    index and the number of frames.  (Index 0 is not a request for a
    frame: it selects continuous mode.) *)
Theorem frame_index_out_of_range (frameToPrint : Z) :
  frameToPrint < 0 \/ n_frames im < frameToPrint ->
  run frameToPrint
  = (Exit 1,
     say w1 [Print (str_of_string "Frame " ++ str_of_int frameToPrint
                    ++ str_of_string " is out of range. Total frames: "
                    ++ str_of_int (n_frames im))]).
Proof.
  intros Hout.
  assert (Hn : 0 <= n_frames im) by (unfold n_frames, len; lia).
  apply ProcessGif_out_of_range; lia.
Qed.

(** C9.  Once the geometry is resolved, index 0 runs continuous mode over
    all the frames of the image, in order, instead of showing one frame;
    and every index other than 0 that is larger than the number of frames
    ends the run with status 1 and the out-of-range message. *)
Theorem frame_index_zero_plays_all :
  (forall asciiImgs,
     rendered asciiImgs ->
     len asciiImgs = n_frames im /\
     run 0 = (Ok tt, played_all g (video_name videoPath) (n_frames im) w1 asciiImgs)) /\
  (forall frameToPrint,
     frameToPrint <> 0 -> n_frames im < frameToPrint ->
     run frameToPrint
     = (Exit 1, say w1 [out_of_range_message frameToPrint (n_frames im)])).
Proof.
  split.
  - intros asciiImgs Hall; split.
    + unfold all_render in Hall.
      unfold n_frames, len; now rewrite (Forall2_length Hall).
    + apply ProcessGif_continuous, Hall.
  - intros k Hk Hout.
    apply ProcessGif_out_of_range; [exact Hk | lia].
Qed.

(** C10.  The marker written to the file carries the zero-based frame
    index: single-frame mode asked for frame [k] writes the file anew with
    the marker line "Frame " followed by [k - 1], which is not the line
    for [k], and the first block that continuous mode appends starts with
    the line "Frame 0". *)
Theorem saved_marker_is_zero_based :
  SAVE_ENABLED g = true ->
  (forall k grayscale asciiImg,
     1 <= k <= n_frames im ->
     nth_error (frames im) (Z.to_nat (k - 1)) = Some grayscale ->
     render grayscale = Ok asciiImg ->
     files (snd (run k)) path
     = Some ((str_of_string "Frame " ++ str_of_int (k - 1) ++ newline)
             ++ List.concat (map (fun line => line ++ newline) asciiImg))) /\
  (forall k : Z,
     str_of_string "Frame " ++ str_of_int (k - 1) ++ newline
     <> str_of_string "Frame " ++ str_of_int k ++ newline) /\
  (forall asciiImg asciiImgs,
     rendered (asciiImg :: asciiImgs) ->
     exists rest,
       files (snd (run 0)) path
       = Some (content w path ++ (str_of_string "Frame 0" ++ newline) ++ rest)).
Proof.
  intros Hs; split; [|split].
  - intros k f img Hk Hnth Hf.
    rewrite (ProcessGif_single_frame k f img Hk Hnth Hf).
    rewrite Hs; cbn [negb].
    destruct (SaveFrame_run g img (video_name videoPath) (k - 1) mode_w w1)
      as (w' & -> & _ & _ & Hfile).
    exact Hfile.
  - intros k E.
    apply app_inv_head, app_inv_tail, str_of_int_inj in E; lia.
  - intros img imgs Hall.
    rewrite (continuous_save_file (img :: imgs) Hs Hall ltac:(discriminate)).
    unfold frame_blocks; rewrite indexed_cons; cbn [map List.concat].
    eexists; unfold frame_block at 1.
    change (str_of_string "Frame " ++ str_of_int 0) with (str_of_string "Frame 0").
    rewrite <- !app_assoc; reflexivity.
Qed.

End Resolved.

(** *** The driver on a two-frame image *)

Lemma demo_resolved (w : world) :
  GetFrameData (size demo_image) 2 one w
  = (Ok demo_geometry, say w (geometry_report 4 4 two two 2)).
Proof.
  change (size demo_image) with (4, 4).
  rewrite (GetFrameData_run 4 4 2 one two two 2 w);
    [reflexivity | vm_compute; reflexivity ..].
Qed.

Lemma demo_all_render (save inverse : bool) :
  inverse = false ->
  all_render (demo_globals save) demo_image 2 inverse demo_geometry demo_rendered.
Proof.
  intros ->; unfold all_render, demo_geometry, demo_image, demo_rendered; cbn [frames].
  repeat (constructor; [vm_compute; reflexivity|]); constructor.
Qed.

Lemma continuous_save_appends_witness :
  let g := demo_globals true in
  let path := output_path g (video_name "gifs/cat.gif") in
  let w' := snd (ProcessGif g demo_image "gifs/cat.gif" 2 one 0 false used_world) in
  GetFrameData (size demo_image) 2 one used_world
    = (Ok demo_geometry, say used_world (geometry_report 4 4 two two 2)) /\
  SAVE_ENABLED g = true /\
  all_render g demo_image 2 false demo_geometry demo_rendered /\
  content w' path
    = (str_of_string "old" ++ newline)
      ++ (str_of_string "Frame 0" ++ newline)
      ++ (str_of_string "@@" ++ newline) ++ (str_of_string "@@" ++ newline)
      ++ (str_of_string "Frame 1" ++ newline)
      ++ (str_of_string "  " ++ newline) ++ (str_of_string "  " ++ newline).
Proof.
  intros g path w'.
  split; [apply demo_resolved|].
  split; [reflexivity|].
  split; [apply demo_all_render; reflexivity|].
  destruct (continuous_save_appends g demo_image "gifs/cat.gif" 2 one false used_world
              (say used_world (geometry_report 4 4 two two 2)) 4 4 two two 2
              (demo_resolved used_world) demo_rendered) as [Hc _].
  - reflexivity.
  - apply demo_all_render; reflexivity.
  - fold path in Hc; fold w' in Hc; rewrite Hc; vm_compute; reflexivity.
Defined.

(** The first write of continuous mode does not truncate: on a file that
    already holds a line, the run leaves that line in front of its frames,
    so the file does not hold exactly the frames of the run. *)
Lemma continuous_save_keeps_old_text :
  let g := demo_globals true in
  let w' := snd (ProcessGif g demo_image "gifs/cat.gif" 2 one 0 false used_world) in
  fst (ProcessGif g demo_image "gifs/cat.gif" 2 one 0 false used_world) = Ok tt /\
  files w' "out/cat.txt"
    = Some ((str_of_string "old" ++ newline) ++ frame_blocks demo_rendered) /\
  files w' "out/cat.txt" <> Some (frame_blocks demo_rendered).
Proof.
  intros g w'.
  assert (H : files w' "out/cat.txt"
              = Some ((str_of_string "old" ++ newline) ++ frame_blocks demo_rendered))
    by (vm_compute; reflexivity).
  split; [vm_compute; reflexivity|].
  split; [exact H|].
  rewrite H; vm_compute; discriminate.
Qed.

Lemma frame_index_out_of_range_witness :
  let g := demo_globals false in
  GetFrameData (size demo_image) 2 one empty_world
    = (Ok demo_geometry, say empty_world (geometry_report 4 4 two two 2)) /\
  (3 < 0 \/ n_frames demo_image < 3) /\
  ProcessGif g demo_image "gifs/cat.gif" 2 one 3 false empty_world
  = (Exit 1,
     say (say empty_world (geometry_report 4 4 two two 2))
         [Print (str_of_string "Frame 3 is out of range. Total frames: 2")]).
Proof.
  intros g.
  split; [apply demo_resolved|].
  split; [right; vm_compute; reflexivity|].
  rewrite (frame_index_out_of_range g demo_image "gifs/cat.gif" 2 one false
             empty_world (say empty_world (geometry_report 4 4 two two 2))
             4 4 two two 2 (demo_resolved empty_world) 3).
  - reflexivity.
  - right; vm_compute; reflexivity.
Defined.

(** Index 0 is not rejected: the run plays every frame and ends
    normally. *)
Lemma frame_index_zero_accepted :
  let g := demo_globals false in
  0 <= 0 /\
  fst (ProcessGif g demo_image "gifs/cat.gif" 2 one 0 false empty_world) = Ok tt /\
  forall w', ProcessGif g demo_image "gifs/cat.gif" 2 one 0 false empty_world
             <> (Exit 1, w').
Proof.
  intros g.
  assert (H : fst (ProcessGif g demo_image "gifs/cat.gif" 2 one 0 false empty_world)
              = Ok tt) by (vm_compute; reflexivity).
  split; [lia|]. split; [exact H|].
  intros w' E; apply (f_equal fst) in E; cbn [fst] in E; congruence.
Qed.

(** Without an accepted geometry the index is never looked at.  On the
    two-frame 4 x 4 image at width 80 the resolver leaves with the message
    that the image is too small: for index 7, beyond the two frames, the
    out-of-range message is not printed, and for index 0 no frame is
    played. *)
Lemma frame_index_before_geometry :
  let g := demo_globals false in
  let tile := SFdiv prec emax (exact 4) (exact 80) in
  let report := geometry_report 4 4 tile tile 80 ++ [too_small_message] in
  7 <> 0 /\ n_frames demo_image < 7 /\
  ProcessGif g demo_image "gifs/cat.gif" 80 one 7 false empty_world
    = (Exit 1, say empty_world report) /\
  ~ In (out_of_range_message 7 (n_frames demo_image)) report /\
  ProcessGif g demo_image "gifs/cat.gif" 80 one 0 false empty_world
    = (Exit 1, say empty_world report) /\
  ~ In (frame_number_line 0) report.
Proof.
  intros g tile report.
  split; [discriminate|].
  split; [vm_compute; reflexivity|].
  split; [vm_compute; reflexivity|].
  split; [vm_compute; intuition discriminate|].
  split; [vm_compute; reflexivity|].
  vm_compute; intuition discriminate.
Qed.

Lemma frame_index_zero_plays_all_witness :
  let g := demo_globals false in
  let w1 := say empty_world (geometry_report 4 4 two two 2) in
  GetFrameData (size demo_image) 2 one empty_world = (Ok demo_geometry, w1) /\
  all_render g demo_image 2 false demo_geometry demo_rendered /\
  ProcessGif g demo_image "gifs/cat.gif" 2 one 0 false empty_world
  = (Ok tt,
     say w1 [ Print (str_of_string "Frame number: 0");
              Print (str_of_string "@@"); Print (str_of_string "@@");
              Write ([27%N] ++ str_of_string "[3A");
              Print (str_of_string "Frame number: 1");
              Print (str_of_string "  "); Print (str_of_string "  ") ]) /\
  ProcessGif g demo_image "gifs/cat.gif" 2 one 7 false empty_world
  = (Exit 1, say w1 [Print (str_of_string "Frame 7 is out of range. Total frames: 2")]).
Proof.
  intros g w1.
  destruct (frame_index_zero_plays_all g demo_image "gifs/cat.gif" 2 one false
              empty_world w1 4 4 two two 2 (demo_resolved empty_world))
    as [Hall Hout].
  split; [apply demo_resolved|].
  split; [apply demo_all_render; reflexivity|].
  split.
  - destruct (Hall demo_rendered (demo_all_render false false eq_refl)) as [_ ->].
    reflexivity.
  - rewrite (Hout 7); [reflexivity | discriminate | vm_compute; reflexivity].
Defined.

Lemma saved_marker_is_zero_based_witness :
  let g := demo_globals true in
  let path := output_path g (video_name "gifs/cat.gif") in
  GetFrameData (size demo_image) 2 one used_world
    = (Ok (4, 4, two, two, 2), say used_world (geometry_report 4 4 two two 2)) /\
  SAVE_ENABLED g = true /\
  1 <= 2 <= n_frames demo_image /\
  files (snd (ProcessGif g demo_image "gifs/cat.gif" 2 one 2 false used_world)) path
  = Some ((str_of_string "Frame 1" ++ newline)
          ++ (str_of_string "  " ++ newline) ++ (str_of_string "  " ++ newline)) /\
  exists rest,
    files (snd (ProcessGif g demo_image "gifs/cat.gif" 2 one 0 false used_world)) path
    = Some (content used_world path ++ (str_of_string "Frame 0" ++ newline) ++ rest).
Proof.
  intros g path; subst path.
  destruct (saved_marker_is_zero_based g demo_image "gifs/cat.gif" 2 one false
              used_world (say used_world (geometry_report 4 4 two two 2))
              4 4 two two 2 (demo_resolved used_world) eq_refl)
    as (Hsingle & _ & Hall).
  split; [apply demo_resolved|].
  split; [reflexivity|].
  split; [vm_compute; split; discriminate|].
  split.
  - rewrite (Hsingle 2 (fun _ _ => 255) [ [32; 32]; [32; 32] ]%N).
    + reflexivity.
    + vm_compute; split; discriminate.
    + reflexivity.
    + vm_compute; reflexivity.
  - apply (Hall [ [64; 64]; [64; 64] ]%N [ [ [32; 32]; [32; 32] ]%N ]).
    apply (demo_all_render true false eq_refl).
Defined.

(** * Further properties of the code *)

(** ** Tile sampler *)

(** X1.  The brightness of a tile lies between its darkest and its
    brightest pixel; a tile of one colour yields that colour. *)
Theorem GetAverageBrightness_between (lo hi : Z) (pixels : list Z) :
  pixels <> [] ->
  Forall (fun p => lo <= p <= hi) pixels ->
  exists b, GetAverageBrightness pixels = Ok b /\ lo <= b <= hi.
Proof.
  intros Hne Hpix.
  assert (Hlen : 0 < len pixels).
  { unfold len; destruct pixels; [congruence | simpl; lia]. }
  pose proof (sum_bounds lo hi pixels Hpix) as Hsum.
  exists (sum pixels / len pixels); unfold GetAverageBrightness.
  replace (len pixels =? 0) with false by (symmetry; apply Z.eqb_neq; lia).
  split; [reflexivity|]; split.
  - apply Z.div_le_lower_bound; lia.
  - apply Z.div_le_upper_bound; lia.
Qed.

Lemma GetAverageBrightness_between_witness :
  [7; 7; 7] <> [] /\
  Forall (fun p => 7 <= p <= 7) [7; 7; 7] /\
  exists b, GetAverageBrightness [7; 7; 7] = Ok b /\ 7 <= b <= 7.
Proof.
  split; [discriminate|].
  split; [repeat constructor; lia|].
  apply (GetAverageBrightness_between 7 7 [7; 7; 7]).
  - discriminate.
  - repeat constructor; lia.
Defined.

Lemma sum_monotone (ps qs : list Z) :
  Forall2 Z.le ps qs -> sum ps <= sum qs /\ len ps = len qs.
Proof.
  unfold len; induction 1 as [|p q ps qs Hpq _ IH]; simpl; [lia|].
  destruct IH; lia.
Qed.

(** X2.  A tile that is at least as bright pixel by pixel is sampled at
    least as bright. *)
Theorem GetAverageBrightness_monotone (ps qs : list Z) (b : Z) :
  Forall2 Z.le ps qs ->
  GetAverageBrightness ps = Ok b ->
  exists b', GetAverageBrightness qs = Ok b' /\ b <= b'.
Proof.
  intros Hle H.
  destruct (sum_monotone ps qs Hle) as [Hsum Hlen].
  unfold GetAverageBrightness in *; rewrite <- Hlen.
  destruct (len ps =? 0) eqn:E; [discriminate|].
  apply Z.eqb_neq in E; injection H as <-.
  eexists; split; [reflexivity|].
  apply Z.div_le_mono; [unfold len in *; lia | exact Hsum].
Qed.

Lemma GetAverageBrightness_monotone_witness :
  Forall2 Z.le [10; 20; 35] [10; 25; 40] /\
  GetAverageBrightness [10; 20; 35] = Ok 21 /\
  exists b', GetAverageBrightness [10; 25; 40] = Ok b' /\ 21 <= b'.
Proof.
  split; [repeat constructor; lia|].
  split; [reflexivity|].
  apply (GetAverageBrightness_monotone [10; 20; 35] [10; 25; 40] 21).
  - repeat constructor; lia.
  - reflexivity.
Defined.

(** ** Brightness to gradient index *)

(** The exactly rounded index in closed form. *)
Lemma spec_index_closed (inverse : bool) (b rampLength : Z) :
  0 <= b <= 255 -> 1 <= rampLength ->
  spec_index inverse b rampLength
  = (2 * ((if inverse then 255 - b else b) * (rampLength - 1)) + 255) / 510.
Proof.
  intros Hb HN; unfold spec_index; cbv zeta.
  set (num := (if inverse then 255 - b else b) * (rampLength - 1)).
  assert (Hnum : 0 <= num) by (unfold num; destruct inverse; nia).
  clearbody num.
  pose proof (Z.div_mod num 255 ltac:(lia)) as Hdm.
  pose proof (Z.mod_pos_bound num 255 ltac:(lia)) as Hmod.
  destruct (2 * (num mod 255) ?= 255) eqn:E.
  - apply Z.compare_eq in E; lia.
  - rewrite Z.compare_lt_iff in E.
    apply Z.div_unique with (r := 2 * (num mod 255) + 255); lia.
  - rewrite Z.compare_gt_iff in E.
    apply Z.div_unique with (r := 2 * (num mod 255) - 255); lia.
Qed.

Lemma spec_index_monotone (b b' rampLength : Z) :
  0 <= b <= b' -> b' <= 255 -> 1 <= rampLength ->
  spec_index false b rampLength <= spec_index false b' rampLength /\
  spec_index true b' rampLength <= spec_index true b rampLength.
Proof.
  intros Hb Hb' HN.
  rewrite !spec_index_closed by lia; cbv iota.
  split; apply Z.div_le_mono; nia.
Qed.

(** Inverting mirrors the index. *)
Lemma spec_index_mirror (b rampLength : Z) :
  0 <= b <= 255 -> 1 <= rampLength ->
  spec_index true b rampLength = rampLength - 1 - spec_index false b rampLength.
Proof.
  intros Hb HN.
  rewrite !spec_index_closed by lia; cbv iota.
  set (t := b * (rampLength - 1)).
  replace ((255 - b) * (rampLength - 1)) with (255 * (rampLength - 1) - t)
    by (unfold t; ring).
  assert (Ht : 0 <= t) by (unfold t; nia).
  clearbody t.
  pose proof (Z.div_mod (2 * t + 255) 510 ltac:(lia)) as Hdm.
  pose proof (Z.mod_pos_bound (2 * t + 255) 510 ltac:(lia)) as Hmod.
  assert (Hodd : (2 * t + 255) mod 510 <> 0).
  { intro E; rewrite E in Hdm; lia. }
  symmetry; apply Z.div_unique with (r := 510 - (2 * t + 255) mod 510); lia.
Qed.

(** X3.  On a gradient of at most 64 characters a brighter sample never
    gets an earlier character, and never a later one when the mapping is
    inverted. *)
Theorem ramp_index_monotone (rampLength b b' : Z) :
  1 <= rampLength <= 64 -> 0 <= b <= b' -> b' <= 255 ->
  exists i i' j j',
    ramp_index false b rampLength = Ok i /\
    ramp_index false b' rampLength = Ok i' /\ i <= i' /\
    ramp_index true b rampLength = Ok j /\
    ramp_index true b' rampLength = Ok j' /\ j' <= j.
Proof.
  intros HN Hb Hb'.
  destruct (ramp_index_exact rampLength false b) as [E1 _]; [lia | lia |].
  destruct (ramp_index_exact rampLength false b') as [E2 _]; [lia | lia |].
  destruct (ramp_index_exact rampLength true b) as [E3 _]; [lia | lia |].
  destruct (ramp_index_exact rampLength true b') as [E4 _]; [lia | lia |].
  destruct (spec_index_monotone b b' rampLength) as [M1 M2]; [lia | lia | lia |].
  do 4 eexists; repeat split; eassumption.
Qed.

Lemma ramp_index_monotone_witness :
  1 <= 10 <= 64 /\ 0 <= 100 <= 101 /\ 101 <= 255 /\
  exists i i' j j',
    ramp_index false 100 10 = Ok i /\
    ramp_index false 101 10 = Ok i' /\ i <= i' /\
    ramp_index true 100 10 = Ok j /\
    ramp_index true 101 10 = Ok j' /\ j' <= j.
Proof.
  split; [lia|]. split; [lia|]. split; [lia|].
  apply (ramp_index_monotone 10 100 101); lia.
Defined.

(** ** Frame renderer *)

Lemma for_each_ext {A B : Type} (f g : A -> outcome B) (xs : list A) :
  (forall x, In x xs -> f x = g x) -> for_each f xs = for_each g xs.
Proof.
  induction xs as [|x rest IH]; simpl; intro H; [reflexivity|].
  rewrite (H x) by (left; reflexivity).
  rewrite IH by (intros; apply H; right; assumption).
  reflexivity.
Qed.

(** What the sampler returns on a box of a frame of byte intensities. *)
Lemma sampled_byte (f : frame) (box : Z * Z * Z * Z) (tile : list Z) (b : Z) :
  (forall x y, 0 <= f x y <= 255) ->
  crop f box = Ok tile -> GetAverageBrightness tile = Ok b -> 0 <= b <= 255.
Proof.
  intros Hf Hc Hb; destruct box as [[[x1 y1] x2] y2].
  assert (Hpix : Forall (fun p => 0 <= p <= 255) tile).
  { unfold crop in Hc; destruct (_ || _); [discriminate|].
    injection Hc as <-.
    apply Forall_forall; intros p Hp.
    apply in_flat_map in Hp as (y & _ & Hp).
    apply in_map_iff in Hp as (x & <- & _); apply Hf. }
  destruct tile as [|p tile]; [discriminate|].
  destruct (mean_in_range (p :: tile) ltac:(discriminate) Hpix) as [E Hr].
  rewrite E in Hb; injection Hb as <-; exact Hr.
Qed.

Lemma len_rev {A : Type} (l : list A) : len (rev l) = len l.
Proof. unfold len; now rewrite length_rev. Qed.

Lemma getitem_rev {A : Type} (l : list A) (i : Z) :
  0 <= i < len l -> getitem (rev l) i = getitem l (len l - 1 - i).
Proof.
  intros Hi.
  destruct (getitem_in_range (rev l) i) as (a & -> & Ha); [rewrite len_rev; lia|].
  destruct (getitem_in_range l (len l - 1 - i)) as (c & -> & Hc); [lia|].
  rewrite nth_error_rev in Ha.
  replace (Z.to_nat i <? List.length l)%nat with true in Ha
    by (symmetry; apply Nat.ltb_lt; unfold len in Hi; lia).
  replace (List.length l - S (Z.to_nat i))%nat with (Z.to_nat (len l - 1 - i)) in Ha
    by (unfold len in *; lia).
  congruence.
Qed.

(** X4.  On a gradient of at most 64 characters and a frame of byte
    intensities, rendering with the inverted mapping is rendering with
    the reversed gradient: the same frame comes out, or the same
    exception. *)
Theorem inverse_is_reversed_gradient (ramp : str) (f : frame) (iw ih : Z)
    (tw th : float) (w h : Z) :
  1 <= len ramp <= 64 ->
  (forall x y, 0 <= f x y <= 255) ->
  ProcessFrame ramp f iw ih tw th w h true
  = ProcessFrame (rev ramp) f iw ih tw th w h false.
Proof.
  intros HN Hf; unfold ProcessFrame.
  apply for_each_ext; intros y _.
  destruct (tile_bounds y th h ih) as [[y1 y2]| |]; cbn [bind]; try reflexivity.
  apply for_each_ext; intros x _.
  destruct (tile_bounds x tw w iw) as [[x1 x2]| |]; cbn [bind]; try reflexivity.
  destruct (crop f (x1, y1, x2, y2)) as [tile| |] eqn:Hc; cbn [bind]; try reflexivity.
  destruct (GetAverageBrightness tile) as [b| |] eqn:Hb; cbn [bind]; try reflexivity.
  pose proof (sampled_byte f _ tile b Hf Hc Hb) as Hbyte.
  rewrite len_rev.
  destruct (ramp_index_exact (len ramp) true b) as [-> _]; [lia | lia |].
  destruct (ramp_index_exact (len ramp) false b) as [-> Hi]; [lia | lia |].
  cbn [bind].
  rewrite getitem_rev by exact Hi.
  rewrite spec_index_mirror by lia; reflexivity.
Qed.

Lemma inverse_is_reversed_gradient_witness :
  let ramp := str_of_string "@%#*+=-:. " in
  let f : frame := fun _ _ => 200 in
  1 <= len ramp <= 64 /\
  (forall x y : Z, 0 <= f x y <= 255) /\
  ProcessFrame ramp f 4 4 (exact 2) (exact 2) 2 2 true
  = ProcessFrame (rev ramp) f 4 4 (exact 2) (exact 2) 2 2 false /\
  ProcessFrame ramp f 4 4 (exact 2) (exact 2) 2 2 true = Ok [ [35; 35]; [35; 35] ]%N.
Proof.
  intros ramp f.
  split; [vm_compute; split; discriminate|].
  split; [intros; unfold f; lia|].
  split; [|vm_compute; reflexivity].
  apply (inverse_is_reversed_gradient ramp f 4 4 (exact 2) (exact 2) 2 2).
  - vm_compute; split; discriminate.
  - intros; unfold f; lia.
Defined.

Lemma span_In (a b x : Z) : In x (span a b) -> a <= x < b.
Proof.
  unfold span; intro H.
  apply in_map_iff in H as (i & <- & Hi); apply in_seq in Hi; lia.
Qed.

(** A tile inside a rectangle of one colour has that colour. *)
Lemma uniform_mean (v : Z) (f : frame) (iw ih x1 y1 x2 y2 : Z) (tile : list Z)
    (b : Z) :
  (forall x y, 0 <= x < iw -> 0 <= y < ih -> f x y = v) ->
  0 <= x1 -> x2 <= iw -> 0 <= y1 -> y2 <= ih ->
  crop f (x1, y1, x2, y2) = Ok tile -> GetAverageBrightness tile = Ok b -> b = v.
Proof.
  intros Hf Hx1 Hx2 Hy1 Hy2 Hc Hb.
  assert (Hpix : Forall (fun p => v <= p <= v) tile).
  { unfold crop in Hc; destruct (_ || _); [discriminate|].
    injection Hc as <-.
    apply Forall_forall; intros p Hp.
    apply in_flat_map in Hp as (y & Hy & Hp).
    apply in_map_iff in Hp as (x & <- & Hx).
    apply span_In in Hx, Hy.
    rewrite Hf by lia; lia. }
  pose proof (sum_bounds v v tile Hpix) as Hsum.
  unfold GetAverageBrightness in Hb.
  destruct (len tile =? 0) eqn:E; [discriminate|].
  apply Z.eqb_neq in E; injection Hb as <-.
  replace (sum tile) with (v * len tile) by lia.
  apply Z.div_mul; exact E.
Qed.

(** Along an axis whose tiles were all computed and are not empty, every
    tile lies between 0 and the image size. *)
Lemma axis_inside (ts : float) (count imgSize : Z) :
  1 <= count ->
  (forall i, 0 <= i < count ->
     exists lo hi, tile_bounds i ts count imgSize = Ok (lo, hi) /\ lo < hi) ->
  forall i lo hi, 0 <= i < count ->
    tile_bounds i ts count imgSize = Ok (lo, hi) -> 0 <= lo /\ hi <= imgSize.
Proof.
  intros Hc Hall i lo hi Hi Hb.
  destruct (axis_edges ts count imgSize Hc Hall) as (E0 & En & Es).
  set (E := edge ts count imgSize) in *.
  assert (Estep : forall j, 0 <= j < count -> E j < E (j + 1))
    by (intros; apply Es; lia).
  destruct (Es i Hi) as [Hi' _]; rewrite Hi' in Hb; injection Hb as <- <-.
  pose proof (chain_monotone E count Estep 0 i ltac:(lia) ltac:(lia)).
  pose proof (chain_monotone E count Estep (i + 1) count ltac:(lia) ltac:(lia)).
  lia.
Qed.

(** X5.  A frame that has one colour over the whole image rectangle
    renders to one character repeated over the whole grid, the character
    of that colour; for black and for white it is an end of the gradient.
    Outside the rectangle the frame may hold anything: no tile reaches
    there. *)
Theorem uniform_frame_single_glyph (ramp : str) (f : frame) (iw ih : Z)
    (tw th : float) (w h : Z) (inv : bool) (img : list str) (v : Z) :
  (forall x y, 0 <= x < iw -> 0 <= y < ih -> f x y = v) ->
  1 <= w -> 1 <= h ->
  ProcessFrame ramp f iw ih tw th w h inv = Ok img ->
  exists i c,
    ramp_index inv v (len ramp) = Ok i /\
    getitem ramp i = Ok c /\
    img = repeat (repeat c (Z.to_nat w)) (Z.to_nat h) /\
    (len ramp <= 2 ^ 53 -> v = 0 -> i = if inv then len ramp - 1 else 0) /\
    (len ramp <= 2 ^ 53 -> v = 255 -> i = if inv then 0 else len ramp - 1).
Proof.
  intros Hf Hw Hh H.
  destruct (ProcessFrame_tiles_nonempty _ _ _ _ _ _ _ _ _ _ Hw Hh H) as [HY HX].
  pose proof (axis_inside th h ih Hh HY) as Yin.
  pose proof (axis_inside tw w iw Hw HX) as Xin.
  apply ProcessFrame_rows in H as [Hlen H].
  assert (Hcell : forall x y, 0 <= x < w -> 0 <= y < h ->
            exists i c row,
              ramp_index inv v (len ramp) = Ok i /\ getitem ramp i = Ok c /\
              nth_error img (Z.to_nat y) = Some row /\
              List.length row = Z.to_nat w /\
              nth_error row (Z.to_nat x) = Some c).
  { intros x y Hx Hy.
    destruct (H y Hy) as (row & y1 & y2 & Hrow & Hyb & Hrl & Hcells).
    destruct (Hcells x Hx) as (c & x1 & x2 & tile & b & i & Hc & Hxb & Ht & Hb & Hi & Hg).
    destruct (Yin y y1 y2 Hy Hyb) as [Hy1 Hy2].
    destruct (Xin x x1 x2 Hx Hxb) as [Hx1 Hx2].
    rewrite (uniform_mean v f iw ih x1 y1 x2 y2 tile b Hf Hx1 Hx2 Hy1 Hy2 Ht Hb) in Hi.
    exists i, c, row; repeat split; assumption. }
  destruct (Hcell 0 0 ltac:(lia) ltac:(lia)) as (i & c & _ & Hi & Hg & _).
  exists i, c; split; [exact Hi|]; split; [exact Hg|].
  assert (Hlenr : 1 <= len ramp).
  { apply getitem_In in Hg; unfold len; destruct ramp; [contradiction | simpl; lia]. }
  split; [|split].
  - rewrite <- Hlen.
    apply Forall_eq_repeat, Forall_forall; intros row Hin.
    apply In_nth_error in Hin as [n Hn].
    pose proof (nth_error_lt _ _ _ Hn) as Hn'.
    destruct (H (Z.of_nat n) ltac:(lia)) as (row' & _ & _ & Hrow' & _ & Hrl & _).
    rewrite Nat2Z.id, Hn in Hrow'; injection Hrow' as <-.
    rewrite <- Hrl; symmetry.
    apply Forall_eq_repeat, Forall_forall; intros c' Hc'.
    apply In_nth_error in Hc' as [k Hk].
    pose proof (nth_error_lt _ _ _ Hk) as Hk'.
    destruct (Hcell (Z.of_nat k) (Z.of_nat n) ltac:(lia) ltac:(lia))
      as (i' & c'' & row' & Hi' & Hg' & Hrow' & _ & Hc'').
    rewrite Nat2Z.id in Hrow', Hc''.
    rewrite Hn in Hrow'; injection Hrow' as <-.
    rewrite Hk in Hc''; injection Hc'' as <-.
    congruence.
  - intros HN ->.
    destruct (ramp_index_endpoints (len ramp)) as (E1 & _ & E3 & _); [lia|].
    destruct inv; congruence.
  - intros HN ->.
    destruct (ramp_index_endpoints (len ramp)) as (_ & E2 & _ & E4); [lia|].
    destruct inv; congruence.
Qed.

Lemma uniform_frame_single_glyph_witness :
  let ramp := str_of_string "@%#*+=-:. " in
  let f : frame := white_frame 160 100 in
  let tw := SFdiv prec emax (exact 160) (exact 10) in
  let th := SFdiv prec emax tw half in
  (forall x y : Z, 0 <= x < 160 -> 0 <= y < 100 -> f x y = 255) /\
  f 160 0 = 0 /\
  1 <= 10 /\ 1 <= 3 /\
  ProcessFrame ramp f 160 100 tw th 10 3 false
    = Ok (repeat (repeat 32%N 10) 3) /\
  exists i c,
    ramp_index false 255 (len ramp) = Ok i /\
    getitem ramp i = Ok c /\
    repeat (repeat 32%N 10) 3 = repeat (repeat c (Z.to_nat 10)) (Z.to_nat 3) /\
    (len ramp <= 2 ^ 53 -> 255 = 0 -> i = 0) /\
    (len ramp <= 2 ^ 53 -> 255 = 255 -> i = len ramp - 1).
Proof.
  intros ramp f tw th.
  assert (Hf : forall x y : Z, 0 <= x < 160 -> 0 <= y < 100 -> f x y = 255).
  { intros x y Hx Hy; unfold f, white_frame.
    replace (0 <=? x) with true by (symmetry; apply Z.leb_le; lia).
    replace (x <? 160) with true by (symmetry; apply Z.ltb_lt; lia).
    replace (0 <=? y) with true by (symmetry; apply Z.leb_le; lia).
    replace (y <? 100) with true by (symmetry; apply Z.ltb_lt; lia).
    reflexivity. }
  assert (Hr : ProcessFrame ramp f 160 100 tw th 10 3 false
               = Ok (repeat (repeat 32%N 10) 3)) by (vm_compute; reflexivity).
  split; [exact Hf|]. split; [reflexivity|]. split; [lia|]. split; [lia|].
  split; [exact Hr|].
  apply (uniform_frame_single_glyph ramp f 160 100 tw th 10 3 false
           (repeat (repeat 32%N 10) 3) 255 Hf); [lia | lia | exact Hr].
Defined.

Lemma bind_arithmetic {A B : Type} (c : outcome A) (k : A -> outcome B) :
  arithmetic_failure_only c ->
  (forall a, c = Ok a -> arithmetic_failure_only (k a)) ->
  arithmetic_failure_only (bind c k).
Proof.
  destruct c as [a|e|n]; cbn [bind]; intros Hc Hk; [apply Hk; reflexivity | exact Hc ..].
Qed.

Lemma for_each_arithmetic {A B : Type} (f : A -> outcome B) (xs : list A) :
  (forall x, In x xs -> arithmetic_failure_only (f x)) ->
  arithmetic_failure_only (for_each f xs).
Proof.
  induction xs as [|x rest IH]; cbn [for_each]; intro H; [exact I|].
  apply bind_arithmetic; [apply H; left; reflexivity|]; intros b _.
  apply bind_arithmetic; [apply IH; intros; apply H; right; assumption|].
  intros bs _; exact I.
Qed.

Lemma of_int_arithmetic (n : Z) : arithmetic_failure_only (of_int n).
Proof. unfold of_int; destruct (binary_normalize _ _ _ _ _); exact I. Qed.

Lemma to_int_arithmetic (x : float) : arithmetic_failure_only (to_int x).
Proof. destruct x; exact I. Qed.

Ltac arithmetic :=
  first [ exact I
        | apply of_int_arithmetic
        | apply to_int_arithmetic
        | apply bind_arithmetic; [arithmetic | intros ? _; arithmetic] ].

Lemma tile_bounds_arithmetic (i : Z) (ts : float) (count imgSize : Z) :
  arithmetic_failure_only (tile_bounds i ts count imgSize).
Proof.
  unfold tile_bounds, int_mul_float; arithmetic.
Qed.

(** X6.  On a gradient of 1 to 64 characters and a frame of byte
    intensities the renderer never raises [IndexError] and never leaves
    the process: it returns a frame, or raises [ZeroDivisionError],
    [ValueError] or [OverflowError] from a tile it cannot sample. *)
Theorem ProcessFrame_index_in_range (ramp : str) (f : frame) (iw ih : Z)
    (tw th : float) (w h : Z) (inv : bool) :
  1 <= len ramp <= 64 ->
  (forall x y, 0 <= f x y <= 255) ->
  ProcessFrame ramp f iw ih tw th w h inv <> Raise IndexError /\
  (forall code, ProcessFrame ramp f iw ih tw th w h inv <> Exit code).
Proof.
  intros HN Hf.
  assert (H : arithmetic_failure_only (ProcessFrame ramp f iw ih tw th w h inv)).
  { unfold ProcessFrame.
    apply for_each_arithmetic; intros y _.
    apply bind_arithmetic; [apply tile_bounds_arithmetic|]; intros [y1 y2] _.
    apply for_each_arithmetic; intros x _.
    apply bind_arithmetic; [apply tile_bounds_arithmetic|]; intros [x1 x2] _.
    apply bind_arithmetic.
    { unfold crop; destruct (_ || _); exact I. }
    intros tile Hc.
    apply bind_arithmetic.
    { unfold GetAverageBrightness; destruct (_ =? _); exact I. }
    intros b Hb.
    pose proof (sampled_byte f _ tile b Hf Hc Hb) as Hbyte.
    destruct (ramp_index_exact (len ramp) inv b) as [-> Hi]; [lia | lia |].
    cbn [bind].
    destruct (getitem_in_range ramp _ Hi) as (c & -> & _); exact I. }
  split; [|intro code]; intro E; rewrite E in H; exact H.
Qed.

Lemma ProcessFrame_index_in_range_witness :
  let ramp := [9608; 9608; 9619; 9618; 9617; 32; 32]%N in
  let f : frame := fun x y => 16 * ((x + y) mod 16) in
  let half := SFdiv prec emax (exact 1) (exact 2) in
  1 <= len ramp <= 64 /\
  (forall x y : Z, 0 <= f x y <= 255) /\
  ProcessFrame ramp f 10 10 one half 10 20 true = Raise ZeroDivisionError /\
  ProcessFrame ramp f 10 10 one half 10 20 true <> Raise IndexError.
Proof.
  intros ramp f half.
  assert (Hf : forall x y : Z, 0 <= f x y <= 255).
  { intros x y; unfold f.
    pose proof (Z.mod_pos_bound (x + y) 16 ltac:(lia)); lia. }
  split; [vm_compute; split; discriminate|].
  split; [exact Hf|].
  split.
  - apply (ProcessFrame_first_tile ramp f 10 10 one half 10 20 true 0 0 1 0);
      try lia; vm_compute; reflexivity.
  - apply (ProcessFrame_index_in_range ramp f 10 10 one half 10 20 true).
    + vm_compute; split; discriminate.
    + exact Hf.
Defined.

(** ** Grid geometry resolver *)

(** X7.  A width of 0, or a scale of 0.0 or -0.0, is not reported as an
    image too small: the resolver prints the image size and the run ends
    with an uncaught [ZeroDivisionError]. *)
Theorem GetFrameData_division_by_zero (sw sh width : Z) (scale : float) (w : world) :
  (width = 0 ->
   GetFrameData (sw, sh) width scale w
   = (Raise ZeroDivisionError, say w [image_size_line sw sh])) /\
  (forall tw, int_truediv sw width = Ok tw -> is_zero scale = true ->
   GetFrameData (sw, sh) width scale w
   = (Raise ZeroDivisionError, say w [image_size_line sw sh])).
Proof.
  split.
  - intros ->; reflexivity.
  - intros tw Htw Hz.
    unfold GetFrameData, io_bind, lift, print, emit; cbn [fst snd].
    rewrite Htw; unfold truediv; rewrite Hz; reflexivity.
Qed.

Lemma GetFrameData_division_by_zero_witness :
  int_truediv 4 2 = Ok two /\ is_zero (S754_zero true) = true /\
  GetFrameData (4, 4) 2 (S754_zero true) empty_world
  = (Raise ZeroDivisionError, say empty_world [image_size_line 4 4]).
Proof.
  split; [vm_compute; reflexivity|].
  split; [reflexivity|].
  apply (proj2 (GetFrameData_division_by_zero 4 4 2 (S754_zero true) empty_world) two).
  - vm_compute; reflexivity.
  - reflexivity.
Defined.

(** X8.  A geometry the resolver returns carries the size of the frame,
    an output width not larger than the image width and at least one
    row; the resolver has then printed its three report lines and touched
    no file. *)
Theorem GetFrameData_postcondition (sz : Z * Z) (width : Z) (scale : float)
    (w w' : world) (iw ih : Z) (tw th : float) (h : Z) :
  GetFrameData sz width scale w = (Ok (iw, ih, tw, th, h), w') ->
  sz = (iw, ih) /\ width <= iw /\ 1 <= h /\
  files w' = files w /\
  stdout w' = stdout w ++ geometry_report iw ih tw th h.
Proof.
  intro H.
  apply GetFrameData_Ok in H as (Hsz & _ & _ & _ & Hw & Hh & ->).
  repeat split; assumption.
Qed.

Lemma GetFrameData_postcondition_witness :
  GetFrameData (4, 4) 2 one empty_world
    = (Ok (4, 4, two, two, 2), say empty_world (geometry_report 4 4 two two 2)) /\
  ((4, 4) = (4, 4) /\ 2 <= 4 /\ 1 <= 2 /\
   files (say empty_world (geometry_report 4 4 two two 2)) = files empty_world /\
   stdout (say empty_world (geometry_report 4 4 two two 2))
   = stdout empty_world ++ geometry_report 4 4 two two 2).
Proof.
  split; [apply demo_resolved|].
  apply (GetFrameData_postcondition (4, 4) 2 one empty_world _ 4 4 two two 2).
  apply demo_resolved.
Defined.

Lemma binary_round_aux_has_sign (s : bool) (m e : Z) (l : location) :
  has_sign s (binary_round_aux prec emax s m e l).
Proof.
  unfold binary_round_aux.
  destruct (shr_fexp prec emax m e l) as [mrs e1].
  destruct (shr_fexp prec emax _ e1 loc_Exact) as [mrs2 e2].
  destruct (shr_m mrs2); [reflexivity| |exact I].
  destruct (e2 <=? emax - prec); reflexivity.
Qed.

Lemma SFdiv_has_sign (a b : bool) (x y : float) :
  has_sign a x -> has_sign b y -> has_sign (xorb a b) (SFdiv prec emax x y).
Proof.
  destruct x as [sx|sx| |sx mx ex], y as [sy|sy| |sy my ey];
    cbn [has_sign SFdiv]; intros Hx Hy; subst; try reflexivity; try exact I.
  destruct (SFdiv_core_binary prec emax (Zpos mx) ex (Zpos my) ey) as [[mz ez] lz].
  apply binary_round_aux_has_sign.
Qed.

Lemma overflow_check_has_sign (s : bool) (x y : float) :
  has_sign s x -> overflow_check x = Ok y -> has_sign s y.
Proof. intros Hs H; apply overflow_check_Ok in H as ->; exact Hs. Qed.

Lemma to_int_negative (x : float) (n : Z) :
  has_sign true x -> to_int x = Ok n -> n <= 0.
Proof.
  destruct x as [s|s| |s m e]; cbn; intros Hs H; try discriminate.
  - injection H as <-; lia.
  - subst s; injection H as <-; cbn.
    pose proof (Z.shiftl_nonneg (Zpos m) e); lia.
Qed.

(** X9.  A negative width with a positive scale never yields a geometry:
    whenever the arithmetic is defined the resolver computes a row count
    of at most 0 and leaves with the message that the image is too
    small. *)
Theorem GetFrameData_negative_width (sw sh width : Z) (scale tw th : float)
    (h : Z) (w : world) :
  width < 0 -> 0 <= sw -> 0 <= sh -> is_positive scale = true ->
  int_truediv sw width = Ok tw ->
  truediv tw scale = Ok th ->
  (q <- int_div_float sh th ;; to_int q) = Ok h ->
  h <= 0 /\
  GetFrameData (sw, sh) width scale w
  = (Exit 1, say w (geometry_report sw sh tw th h ++ [too_small_message])).
Proof.
  intros Hw Hsw Hsh Hpos Htw Hth Hh.
  assert (Hle : h <= 0).
  { apply is_positive_sign in Hpos as [Hs _].
    assert (Htws : has_sign true tw).
    { unfold int_truediv in Htw; destruct (width =? 0); [discriminate|].
      apply (overflow_check_has_sign true) in Htw; [exact Htw|].
      change true with (xorb false true); apply SFdiv_has_sign.
      - destruct sw; simpl; try reflexivity; lia.
      - destruct width; simpl; try reflexivity; lia. }
    assert (Hths : has_sign true th).
    { unfold truediv in Hth; destruct (is_zero scale); [discriminate|].
      injection Hth as <-.
      change true with (xorb true false); apply SFdiv_has_sign; [exact Htws|].
      destruct scale; simpl in *; congruence. }
    apply bind_Ok in Hh as (q & Hq & Hh).
    apply (to_int_negative q); [|exact Hh].
    unfold int_div_float in Hq.
    apply bind_Ok in Hq as (fsh & Hfsh & Hq).
    unfold truediv in Hq; destruct (is_zero th); [discriminate|].
    injection Hq as <-.
    change true with (xorb false true); apply SFdiv_has_sign; [|exact Hths].
    pose proof (of_int_sign sh fsh Hsh Hfsh) as Hc.
    destruct fsh; simpl in *; congruence. }
  split; [exact Hle|].
  rewrite (GetFrameData_run sw sh width scale tw th h w Htw Hth Hh).
  replace ((sw <? width) || (h <? 1)) with true; [reflexivity|].
  symmetry; apply orb_true_iff; right; apply Z.ltb_lt; lia.
Qed.

Lemma GetFrameData_negative_width_witness :
  let tw := S754_finite true 4503599627370496 (-51) in
  -2 < 0 /\ 0 <= 4 /\ 0 <= 4 /\ is_positive one = true /\
  int_truediv 4 (-2) = Ok tw /\
  truediv tw one = Ok tw /\
  (q <- int_div_float 4 tw ;; to_int q) = Ok (-2) /\
  -2 <= 0 /\
  GetFrameData (4, 4) (-2) one empty_world
  = (Exit 1, say empty_world (geometry_report 4 4 tw tw (-2) ++ [too_small_message])).
Proof.
  intros tw.
  split; [lia|]. split; [lia|]. split; [lia|].
  split; [reflexivity|].
  split; [vm_compute; reflexivity|].
  split; [vm_compute; reflexivity|].
  split; [vm_compute; reflexivity|].
  apply (GetFrameData_negative_width 4 4 (-2) one tw tw (-2) empty_world);
    first [lia | vm_compute; reflexivity].
Defined.

(** X10.  With no column to fill the renderer returns one empty line per
    row, and with no row it returns no line. *)
Theorem ProcessFrame_degenerate (ramp : str) (f : frame) (iw ih : Z)
    (tw th : float) (w h : Z) (inv : bool) :
  (h <= 0 -> ProcessFrame ramp f iw ih tw th w h inv = Ok []) /\
  (forall img, w <= 0 ->
     ProcessFrame ramp f iw ih tw th w h inv = Ok img ->
     img = repeat [] (Z.to_nat h)).
Proof.
  split.
  - intro Hh; unfold ProcessFrame, range.
    replace (Z.to_nat h) with 0%nat by lia; reflexivity.
  - intros img Hw H.
    apply ProcessFrame_rows in H as [Hlen H].
    rewrite <- Hlen.
    apply Forall_eq_repeat, Forall_forall; intros row Hin.
    apply In_nth_error in Hin as [n Hn].
    pose proof (nth_error_lt _ _ _ Hn) as Hn'.
    destruct (H (Z.of_nat n) ltac:(lia)) as (row' & _ & _ & Hrow' & _ & Hrl & _).
    rewrite Nat2Z.id, Hn in Hrow'; injection Hrow' as <-.
    replace (Z.to_nat w) with 0%nat in Hrl by lia.
    destruct row; [reflexivity | discriminate].
Qed.

Lemma ProcessFrame_degenerate_witness :
  let ramp := str_of_string "@%#*+=-:. " in
  let f : frame := fun _ _ => 0 in
  -2 <= 0 /\
  ProcessFrame ramp f 4 4 two two (-2) 2 false = Ok [ []; [] ] /\
  [ []; [] ] = repeat (@nil N) (Z.to_nat 2).
Proof.
  intros ramp f.
  split; [lia|].
  split; [vm_compute; reflexivity|].
  apply (proj2 (ProcessFrame_degenerate ramp f 4 4 two two (-2) 2 false)).
  - lia.
  - vm_compute; reflexivity.
Defined.

(** ** What a run may touch *)

Lemma confined_ret {A : Type} (allowed : string -> Prop) (a : A) :
  confined allowed (ret a).
Proof. intro w; split; [reflexivity | exists []; cbn; now rewrite app_nil_r]. Qed.

Lemma confined_lift {A : Type} (allowed : string -> Prop) (c : outcome A) :
  confined allowed (lift c).
Proof. intro w; split; [reflexivity | exists []; cbn; now rewrite app_nil_r]. Qed.

Lemma confined_exit {A : Type} (allowed : string -> Prop) (code : Z) :
  confined allowed (@exit A code).
Proof. intro w; split; [reflexivity | exists []; cbn; now rewrite app_nil_r]. Qed.

Lemma confined_emit (allowed : string -> Prop) (e : event) :
  confined allowed (emit e).
Proof. intro w; split; [reflexivity | exists [e]; reflexivity]. Qed.

Lemma confined_bind {A B : Type} (allowed : string -> Prop) (c : io A) (k : A -> io B) :
  confined allowed c -> (forall a, confined allowed (k a)) ->
  confined allowed (io_bind c k).
Proof.
  intros Hc Hk w; unfold io_bind.
  destruct (Hc w) as [Hf [es Hs]].
  destruct (c w) as [[a|e|n] w1]; cbn [snd] in *.
  - destruct (Hk a w1) as [Hf' [es' Hs']]; split.
    + intros p Hp; rewrite Hf', Hf by assumption; reflexivity.
    + exists (es ++ es'); rewrite Hs', Hs, app_assoc; reflexivity.
  - split; [exact Hf | exists es; exact Hs].
  - split; [exact Hf | exists es; exact Hs].
Qed.

Lemma confined_for_each {A : Type} (allowed : string -> Prop) (f : A -> io unit)
    (xs : list A) :
  (forall x, confined allowed (f x)) -> confined allowed (io_for_each f xs).
Proof.
  intro Hf; induction xs as [|x rest IH]; cbn [io_for_each].
  - apply confined_ret.
  - apply confined_bind; [apply Hf | intros _; exact IH].
Qed.

Lemma confined_write_file (allowed : string -> Prop) (path : string)
    (mode : write_mode) (text : str) :
  allowed path -> confined allowed (write_file path mode text).
Proof.
  intros Hp w; split; [|exists []; cbn; now rewrite app_nil_r].
  intros p Hnp; cbn.
  destruct (String.eqb_spec p path) as [->|_]; [contradiction | reflexivity].
Qed.

Ltac confine :=
  first [ apply confined_ret | apply confined_lift | apply confined_exit
        | apply confined_emit
        | apply confined_for_each; intros; confine
        | apply confined_bind; [confine | intros; confine] ].

Lemma GetFrameData_confined (allowed : string -> Prop) (sz : Z * Z) (width : Z)
    (scale : float) :
  confined allowed (GetFrameData sz width scale).
Proof.
  unfold GetFrameData, print.
  do 5 (apply confined_bind; [confine | intros ?]).
  destruct (_ || _); confine.
Qed.

(** X11.  A run of the driver only adds to the terminal, and the only
    file it can change is the output file of the video, and that only
    when saving is on: every other file is as before, whatever the
    arguments are and however the run ends. *)
Theorem ProcessGif_confined (g : globals) (im : image) (videoPath : string)
    (width : Z) (scale : float) (frameToPrint : Z) (inverse : bool) :
  confined (fun p => SAVE_ENABLED g = true /\
                     p = output_path g (video_name videoPath))
           (ProcessGif g im videoPath width scale frameToPrint inverse).
Proof.
  unfold ProcessGif.
  apply confined_bind; [apply GetFrameData_confined|].
  intros [[[[iw ih] tw] th] h].
  destruct (negb (frameToPrint =? 0)).
  - destruct (_ || _); [unfold print; confine|].
    do 2 (apply confined_bind; [confine | intros ?]).
    destruct (SAVE_ENABLED g) eqn:Hs; cbn [negb].
    + apply confined_write_file; split; reflexivity.
    + unfold PrintFrame, print; confine.
  - apply confined_for_each; intros [tell grayscale].
    unfold print.
    do 2 (apply confined_bind; [confine | intros ?]).
    destruct (SAVE_ENABLED g) eqn:Hs.
    + apply confined_write_file; split; reflexivity.
    + unfold PrintFrame, print.
      apply confined_bind; [confine | intros _].
      destruct (negb _); confine.
Qed.

(** ** The name of the output file *)

Lemma split_nonempty (sep : ascii) (s : string) : split sep s <> [].
Proof.
  destruct s as [|c s]; cbn [split]; [discriminate|].
  destruct (Ascii.eqb c sep); [discriminate|].
  destruct (split sep s); discriminate.
Qed.

(** A part of [s.split(sep)] holds characters of [s] other than [sep]. *)
Lemma split_parts (sep : ascii) (s part : string) (c : ascii) :
  In part (split sep s) -> occurs c part -> occurs c s /\ c <> sep.
Proof.
  unfold occurs; revert part.
  induction s as [|a s IH]; intros part Hin Hc; cbn [split] in Hin.
  - destruct Hin as [<-|[]]; destruct Hc.
  - destruct (Ascii.eqb_spec a sep) as [->|Hne].
    + destruct Hin as [<-|Hin]; [destruct Hc|].
      destruct (IH part Hin Hc) as [H1 H2]; split; [right; exact H1 | exact H2].
    + pose proof (split_nonempty sep s) as Hnil.
      destruct (split sep s) as [|p0 ps] eqn:E; [congruence|].
      destruct Hin as [<-|Hin].
      * destruct Hc as [<-|Hc]; [split; [left; reflexivity | exact Hne]|].
        destruct (IH p0 (or_introl eq_refl) Hc) as [H1 H2].
        split; [right; exact H1 | exact H2].
      * destruct (IH part (or_intror Hin) Hc) as [H1 H2].
        split; [right; exact H1 | exact H2].
Qed.

Lemma split_without_sep (sep : ascii) (s : string) :
  ~ occurs sep s -> split sep s = [s].
Proof.
  unfold occurs; induction s as [|a s IH]; intro H; cbn [split]; [reflexivity|].
  destruct (Ascii.eqb_spec a sep) as [->|Hne]; [exfalso; apply H; left; reflexivity|].
  rewrite IH by (intro Hs; apply H; right; exact Hs); reflexivity.
Qed.

(** The last part of [(s + sep + t).split(sep)] is [t], and the first part
    of [(s + sep + t).split(sep)] is [s], when the named part is free of
    [sep]. *)
Lemma split_last (sep : ascii) (s t : string) :
  ~ occurs sep t ->
  last (split sep (s ++ String sep t)) EmptyString = t.
Proof.
  intro Ht; induction s as [|a s IH]; cbn [String.append split].
  - rewrite Ascii.eqb_refl, (split_without_sep sep t Ht); reflexivity.
  - pose proof (split_nonempty sep (s ++ String sep t)) as Hnil.
    destruct (Ascii.eqb a sep).
    + destruct (split sep (s ++ String sep t)) eqn:E; [congruence | exact IH].
    + destruct (split sep (s ++ String sep t)) as [|p0 ps] eqn:E; [congruence|].
      destruct ps; [|exact IH].
      exfalso; clear - E Ht.
      assert (Hlen : (2 <= List.length (split sep (s ++ String sep t)))%nat).
      { clear E; induction s as [|b s IHs]; cbn [String.append split].
        - rewrite Ascii.eqb_refl; pose proof (split_nonempty sep t).
          destruct (split sep t); [congruence | simpl; lia].
        - destruct (Ascii.eqb b sep); [simpl; lia|].
          destruct (split sep (s ++ String sep t)) as [|q [|q' qs]];
            simpl in *; lia. }
      rewrite E in Hlen; simpl in Hlen; lia.
Qed.

Lemma split_first (sep : ascii) (s t : string) :
  ~ occurs sep s ->
  hd EmptyString (split sep (s ++ String sep t)) = s.
Proof.
  unfold occurs; induction s as [|a s IH]; intro Hs; cbn [String.append split].
  - rewrite Ascii.eqb_refl; reflexivity.
  - destruct (Ascii.eqb_spec a sep) as [->|Hne]; [exfalso; apply Hs; left; reflexivity|].
    specialize (IH (fun H => Hs (or_intror H))).
    pose proof (split_nonempty sep (s ++ String sep t)) as Hnil.
    destruct (split sep (s ++ String sep t)); [congruence|].
    cbn [hd] in *; now rewrite IH.
Qed.

(** X12.  The name of the output file holds no ['/'] and no ['.'], so the
    file lies directly in the output directory. *)
Theorem video_name_plain (videoPath : string) :
  ~ occurs "/" (video_name videoPath) /\ ~ occurs "." (video_name videoPath).
Proof.
  unfold video_name.
  set (base := last (split "/" videoPath) EmptyString).
  assert (Hbase : In base (split "/" videoPath)).
  { pose proof (split_nonempty "/" videoPath) as Hnil.
    destruct (@exists_last _ (split "/" videoPath) Hnil) as (l & a & E).
    unfold base; rewrite E, last_last; apply in_or_app; right; left; reflexivity. }
  assert (Hstem : In (hd EmptyString (split "." base)) (split "." base)).
  { pose proof (split_nonempty "." base).
    destruct (split "." base); [congruence | left; reflexivity]. }
  split; intro Hc.
  - destruct (split_parts "." base _ "/" Hstem Hc) as [Hb _].
    destruct (split_parts "/" videoPath base "/" Hbase Hb) as [_ Hne]; congruence.
  - destruct (split_parts "." base _ "." Hstem Hc) as [_ Hne]; congruence.
Qed.

(** X13.  From a path [dir/stem.ext] the stem is recovered, whatever the
    directory is; two videos with the same stem in different directories
    therefore share one output file. *)
Theorem video_name_stem (dir stem ext : string) :
  ~ occurs "/" stem -> ~ occurs "." stem -> ~ occurs "/" ext ->
  video_name (dir ++ String "/" (stem ++ String "." ext)) = stem /\
  video_name (stem ++ String "." ext) = stem /\
  video_name stem = stem.
Proof.
  intros Hs1 Hs2 He.
  assert (Hbase : ~ occurs "/" (stem ++ String "." ext)).
  { unfold occurs in *; intro H.
    assert (Happ : forall a b, list_ascii_of_string (a ++ b)
                               = list_ascii_of_string a ++ list_ascii_of_string b).
    { induction a as [|c a IH]; intro b; simpl; [reflexivity | now rewrite IH]. }
    rewrite Happ in H; apply in_app_or in H as [H|H]; [exact (Hs1 H)|].
    destruct H as [H|H]; [discriminate | exact (He H)]. }
  unfold video_name; repeat split.
  - rewrite split_last by exact Hbase; apply split_first, Hs2.
  - rewrite (split_without_sep "/" _ Hbase); cbn [last]; apply split_first, Hs2.
  - rewrite (split_without_sep "/" _ Hs1); cbn [last].
    rewrite (split_without_sep "." _ Hs2); reflexivity.
Qed.

Lemma video_name_stem_witness :
  ~ occurs "/" "cat" /\ ~ occurs "." "cat" /\ ~ occurs "/" "small.gif" /\
  video_name "gifs/old/cat.small.gif" = "cat"%string /\
  video_name "cat.small.gif" = "cat"%string /\
  video_name "cat" = "cat"%string.
Proof.
  assert (H1 : ~ occurs "/" "cat") by (cbv; intuition discriminate).
  assert (H2 : ~ occurs "." "cat") by (cbv; intuition discriminate).
  assert (H3 : ~ occurs "/" "small.gif") by (cbv; intuition discriminate).
  split; [exact H1|]. split; [exact H2|]. split; [exact H3|].
  apply (video_name_stem "gifs/old" "cat" "small.gif" H1 H2 H3).
Defined.

(** ** Whole runs of the driver *)

Lemma say_say (w : world) (es es' : list event) :
  say (say w es) es' = say w (es ++ es').
Proof. unfold say; cbn [files stdout]; now rewrite app_assoc. Qed.

Lemma say_nil (w : world) : say w [] = w.
Proof. unfold say; rewrite app_nil_r; destruct w; reflexivity. Qed.

Lemma map_fst_combine_eq {A B : Type} (ks : list A) (l : list B) :
  List.length ks = List.length l -> map fst (combine ks l) = ks.
Proof.
  revert l; induction ks as [|k ks IH]; intros [|a l] H; try discriminate;
    [reflexivity|].
  cbn [combine map fst]; f_equal; apply IH; simpl in H; lia.
Qed.

Lemma Forall_exists_Forall2 {A B : Type} (R : A -> B -> Prop) (l : list A) :
  Forall (fun a => exists b, R a b) l -> exists bs, Forall2 R l bs.
Proof.
  induction 1 as [|a l [b Hb] _ [bs Hbs]]; [exists []; constructor|].
  exists (b :: bs); constructor; assumption.
Qed.

(** Rendering succeeds or fails by the geometry alone: when one frame
    renders, every grayscale frame does. *)
Lemma all_render_from_first (ramp : str) (iw ih : Z) (tw th : float)
    (width h : Z) (inverse : bool) (first : frame) (asciiImg : list str)
    (fs : list frame) :
  len ramp <= 64 ->
  Forall grayscale_frame fs ->
  ProcessFrame ramp first iw ih tw th width h inverse = Ok asciiImg ->
  exists asciiImgs,
    Forall2 (fun f img => ProcessFrame ramp f iw ih tw th width h inverse = Ok img)
            fs asciiImgs.
Proof.
  intros HN Hbytes Hfirst.
  apply Forall_exists_Forall2, Forall_forall; intros f Hf.
  apply (ProcessFrame_any_content _ first f _ _ _ _ _ _ _ asciiImg Hfirst HN).
  exact (proj1 (Forall_forall _ _) Hbytes f Hf).
Qed.

Lemma played_live_fold (g : globals) (videoName : string) (total h : Z)
    (l : list (Z * list str)) :
  SAVE_ENABLED g = false ->
  Forall (fun p => len (snd p) = h) l ->
  forall w,
    fold_left (fun w0 '(tell, asciiImg) => played g videoName total w0 tell asciiImg) l w
    = say w (flat_map (fun '(tell, asciiImg) => live_events total h tell asciiImg) l).
Proof.
  intros Hs; induction 1 as [|[k img] l Hlen _ IH]; intro w; cbn [fold_left flat_map].
  - symmetry; apply say_nil.
  - rewrite IH; unfold played; rewrite Hs, !say_say.
    cbn [snd] in Hlen; rewrite Hlen.
    f_equal; unfold live_events; cbn [app]; rewrite <- app_assoc; reflexivity.
Qed.

Lemma played_save_stdout (g : globals) (videoName : string) (total : Z)
    (l : list (Z * list str)) :
  SAVE_ENABLED g = true ->
  forall w,
    stdout (fold_left (fun w0 '(tell, asciiImg) => played g videoName total w0 tell asciiImg)
                      l w)
    = stdout w ++ map frame_number_line (map fst l).
Proof.
  intros Hs; induction l as [|[k img] l IH]; intro w; cbn [fold_left map fst].
  - now rewrite app_nil_r.
  - rewrite IH; unfold played; rewrite Hs.
    destruct (SaveFrame_run g img videoName k mode_a
                (say w [Print (str_of_string "Frame number: " ++ str_of_int k)]))
      as (w' & -> & Hout & _); cbn [snd].
    rewrite Hout; unfold say; cbn [stdout]; rewrite <- app_assoc; reflexivity.
Qed.

Section Playback.

Variables (g : globals) (im : image) (videoPath : string).
Variables (width : Z) (scale : float) (inverse : bool).
Variables (w w1 : world) (iw ih : Z) (tw th : float) (h : Z).

(** The resolver accepted the first frame and returned the geometry. *)
Hypothesis resolved :
  GetFrameData (size im) width scale w = (Ok (iw, ih, tw, th, h), w1).

Local Abbreviation run frameToPrint :=
  (ProcessGif g im videoPath width scale frameToPrint inverse w).
Local Abbreviation render grayscale :=
  (ProcessFrame (GRAYSCALE_CHARS g) grayscale iw ih tw th width h inverse).
Local Abbreviation rendered asciiImgs :=
  (all_render g im width inverse (iw, ih, tw, th, h) asciiImgs).

(** The run of continuous mode when the first frame does not render. *)
Lemma continuous_first_frame (first : frame) (others : list frame) :
  frames im = first :: others ->
  match render first with
  | Ok _ => True
  | Raise e => run 0 = (Raise e, say w1 [frame_number_line 0])
  | Exit code => run 0 = (Exit code, say w1 [frame_number_line 0])
  end.
Proof.
  intro Hfr.
  destruct (render first) as [img|e|code] eqn:Hr; [exact I | |];
    unfold ProcessGif, io_bind at 1; rewrite resolved;
    cbn [Z.eqb negb]; rewrite Hfr, indexed_cons; cbn [io_for_each];
    unfold io_bind, print, emit, lift; rewrite Hr; reflexivity.
Qed.

(** X14.  For grayscale frames and a gradient of at most 64 characters a
    continuous run can only fail at its first frame: when the run raises,
    the exception is the one the renderer raised on frame 0, and the run
    has printed the geometry report and the progress line of frame 0 and
    nothing else, and has changed no file. *)
Theorem continuous_fails_at_first_frame (e : exn) :
  len (GRAYSCALE_CHARS g) <= 64 ->
  Forall grayscale_frame (frames im) ->
  fst (run 0) = Raise e ->
  (exists first others, frames im = first :: others /\ render first = Raise e) /\
  snd (run 0) = say w (geometry_report iw ih tw th h ++ [frame_number_line 0]).
Proof.
  intros HN Hbytes Hfail.
  destruct (frames im) as [|first others] eqn:Hfr.
  - assert (Hall : rendered []) by (unfold all_render; rewrite Hfr; constructor).
    rewrite (ProcessGif_continuous g im videoPath width scale inverse w w1
               iw ih tw th h resolved [] Hall) in Hfail.
    discriminate.
  - pose proof (continuous_first_frame first others Hfr) as Hrun.
    destruct (render first) as [img|e'|code] eqn:Hr.
    + destruct (all_render_from_first _ iw ih tw th width h inverse first img
                  (first :: others) HN Hbytes Hr) as [imgs Himgs].
      assert (Hall : rendered imgs) by (unfold all_render; rewrite Hfr; exact Himgs).
      rewrite (ProcessGif_continuous g im videoPath width scale inverse w w1
                 iw ih tw th h resolved imgs Hall) in Hfail.
      discriminate.
    + rewrite Hrun in Hfail |- *; cbn [fst snd] in *.
      injection Hfail as ->.
      split; [exists first, others; split; [reflexivity | exact Hr]|].
      destruct (GetFrameData_Ok _ _ _ _ _ _ _ _ _ _ resolved)
        as (_ & _ & _ & _ & _ & _ & ->).
      apply say_say.
    + rewrite Hrun in Hfail; discriminate.
Qed.

(** X15.  Rendering succeeds or fails by the geometry alone: when the
    frames are grayscale and the gradient has at most 64 characters, a
    continuous run whose first frame renders plays every frame to the end. *)
Theorem continuous_completes_after_first_frame (first : frame)
    (others : list frame) (asciiImg : list str) :
  len (GRAYSCALE_CHARS g) <= 64 ->
  Forall grayscale_frame (frames im) ->
  frames im = first :: others ->
  render first = Ok asciiImg ->
  exists asciiImgs,
    rendered (asciiImg :: asciiImgs) /\
    len (asciiImg :: asciiImgs) = n_frames im /\
    run 0 = (Ok tt, played_all g (video_name videoPath) (n_frames im) w1
                      (asciiImg :: asciiImgs)).
Proof.
  intros HN Hbytes Hfr Hfirst.
  assert (Hall : Forall (fun f => exists img, render f = Ok img) (frames im)).
  { apply Forall_forall; intros f Hf.
    apply (ProcessFrame_any_content _ first f _ _ _ _ _ _ _ asciiImg Hfirst HN).
    exact (proj1 (Forall_forall _ _) Hbytes f Hf). }
  apply Forall_exists_Forall2 in Hall as [imgs Himgs].
  assert (Hr : rendered imgs) by exact Himgs.
  rewrite Hfr in Himgs.
  inversion Himgs as [|f0 img0 fs imgs' H0 Hrest]; subst.
  assert (img0 = asciiImg) by congruence; subst img0.
  exists imgs'; split; [exact Hr|]; split.
  - unfold n_frames, len; now rewrite (Forall2_length Hr).
  - apply ProcessGif_continuous with (1 := resolved), Hr.
Qed.

(** X16.  With saving off, single-frame mode prints the geometry report
    and then the lines of the requested frame, nothing else, and changes
    no file. *)
Theorem single_frame_live (frameToPrint : Z) (grayscale : frame)
    (asciiImg : list str) :
  SAVE_ENABLED g = false ->
  1 <= frameToPrint <= n_frames im ->
  nth_error (frames im) (Z.to_nat (frameToPrint - 1)) = Some grayscale ->
  render grayscale = Ok asciiImg ->
  run frameToPrint
  = (Ok tt, say w (geometry_report iw ih tw th h ++ map Print asciiImg)).
Proof.
  intros Hs Hk Hnth Hf.
  rewrite (ProcessGif_single_frame g im videoPath width scale inverse w w1
             iw ih tw th h resolved frameToPrint grayscale asciiImg Hk Hnth Hf).
  rewrite Hs; cbn [negb]; rewrite PrintFrame_run.
  destruct (GetFrameData_Ok _ _ _ _ _ _ _ _ _ _ resolved) as (_ & _ & _ & _ & _ & _ & ->).
  now rewrite say_say.
Qed.

(** X17.  With saving off, continuous mode sends to the terminal, for each
    frame in order, the progress line, the frame's lines, and then, except
    after the last frame, the escape sequence that moves the cursor up by
    the grid height plus one; it changes no file. *)
Theorem continuous_live_trace (asciiImgs : list (list str)) :
  SAVE_ENABLED g = false ->
  rendered asciiImgs ->
  run 0
  = (Ok tt,
     say w (geometry_report iw ih tw th h
            ++ flat_map (fun '(tell, asciiImg) =>
                           live_events (n_frames im) h tell asciiImg)
                        (indexed asciiImgs))).
Proof.
  intros Hs Hall.
  rewrite (ProcessGif_continuous g im videoPath width scale inverse w w1
             iw ih tw th h resolved asciiImgs Hall).
  destruct (GetFrameData_Ok _ _ _ _ _ _ _ _ _ _ resolved)
    as (_ & _ & _ & _ & _ & Hh & ->).
  unfold played_all.
  rewrite (played_live_fold g (video_name videoPath) (n_frames im) h); [| exact Hs |].
  - now rewrite say_say.
  - apply Forall_forall; intros [k img] Hin; cbn [snd].
    apply in_combine_r in Hin.
    unfold all_render in Hall.
    destruct (In_nth_error _ _ Hin) as [n Hn].
    assert (Hex : exists f, render f = Ok img).
    { clear - Hall Hn. revert n Hn.
      induction Hall as [|f i fs imgs Hf _ IH]; intros [|n] Hn; try discriminate.
      - injection Hn as <-; exists f; exact Hf.
      - apply (IH n Hn). }
    destruct Hex as [f Hf].
    apply ProcessFrame_rows in Hf as [Hlen _].
    unfold len; rewrite Hlen; lia.
Qed.

(** X18.  With saving on, continuous mode prints one progress line per
    frame, numbered from 0, and no line of any frame. *)
Theorem continuous_save_terminal (asciiImgs : list (list str)) :
  SAVE_ENABLED g = true ->
  rendered asciiImgs ->
  stdout (snd (run 0))
  = stdout w
    ++ geometry_report iw ih tw th h
    ++ map frame_number_line (range (n_frames im)).
Proof.
  intros Hs Hall.
  rewrite (ProcessGif_continuous g im videoPath width scale inverse w w1
             iw ih tw th h resolved asciiImgs Hall); cbn [snd].
  destruct (GetFrameData_Ok _ _ _ _ _ _ _ _ _ _ resolved)
    as (_ & _ & _ & _ & _ & _ & ->).
  unfold played_all; rewrite played_save_stdout by exact Hs.
  unfold say; cbn [stdout]; rewrite <- app_assoc; do 3 f_equal.
  unfold indexed; rewrite map_fst_combine_eq
    by (rewrite range_length; unfold len; apply Nat2Z.id).
  unfold n_frames, len; unfold all_render in Hall.
  now rewrite (Forall2_length Hall).
Qed.

End Playback.

Lemma io_bind_ext {A B : Type} (c : io A) (k k' : A -> io B) (w : world) :
  (forall a w', k a w' = k' a w') -> io_bind c k w = io_bind c k' w.
Proof.
  intro H; unfold io_bind.
  destruct (c w) as [[a|e|code] w']; [apply H | reflexivity | reflexivity].
Qed.

(** X19.  Single-frame mode reads nothing but the image size, the frame
    count and the requested frame: two images that agree on these give the
    same run. *)
Theorem single_frame_reads_one_frame (g : globals) (im im' : image)
    (videoPath : string) (width : Z) (scale : float) (frameToPrint : Z)
    (inverse : bool) (w : world) :
  frameToPrint <> 0 ->
  size im = size im' ->
  n_frames im = n_frames im' ->
  nth_error (frames im) (Z.to_nat (frameToPrint - 1))
    = nth_error (frames im') (Z.to_nat (frameToPrint - 1)) ->
  ProcessGif g im videoPath width scale frameToPrint inverse w
  = ProcessGif g im' videoPath width scale frameToPrint inverse w.
Proof.
  intros Hnz Hsize Hn Hnth.
  unfold ProcessGif; rewrite Hsize.
  apply io_bind_ext; intros [[[[iw ih] tw] th] h] w1.
  replace (frameToPrint =? 0) with false by (symmetry; apply Z.eqb_neq; assumption).
  cbn [negb]; rewrite Hn.
  destruct ((frameToPrint - 1 <? 0) || (n_frames im' <=? frameToPrint - 1)) eqn:Hr;
    [reflexivity|].
  apply orb_false_iff in Hr as [Hlo _]; apply Z.ltb_ge in Hlo.
  assert (Hget : getitem (frames im) (frameToPrint - 1)
                 = getitem (frames im') (frameToPrint - 1)).
  { unfold getitem; unfold n_frames in Hn; rewrite Hn.
    replace (frameToPrint - 1 <? 0) with false by (symmetry; apply Z.ltb_ge; lia).
    now rewrite Hnth. }
  unfold io_bind, lift; now rewrite Hget.
Qed.

Lemma continuous_fails_at_first_frame_witness :
  let g := demo_globals true in
  GetFrameData (size demo_image) 4 two used_world
    = (Ok (4, 4, one, half, 8), say used_world (geometry_report 4 4 one half 8)) /\
  len (GRAYSCALE_CHARS g) <= 64 /\
  Forall grayscale_frame (frames demo_image) /\
  fst (ProcessGif g demo_image "gifs/cat.gif" 4 two 0 false used_world)
    = Raise ZeroDivisionError /\
  (exists first others,
     frames demo_image = first :: others /\
     ProcessFrame (GRAYSCALE_CHARS g) first 4 4 one half 4 8 false
       = Raise ZeroDivisionError) /\
  snd (ProcessGif g demo_image "gifs/cat.gif" 4 two 0 false used_world)
    = say used_world (geometry_report 4 4 one half 8 ++ [frame_number_line 0]).
Proof.
  intro g.
  assert (Hres : GetFrameData (size demo_image) 4 two used_world
                 = (Ok (4, 4, one, half, 8),
                    say used_world (geometry_report 4 4 one half 8))).
  { change (size demo_image) with (4, 4).
    rewrite (GetFrameData_run 4 4 4 two one half 8 used_world);
      [reflexivity | vm_compute; reflexivity ..]. }
  assert (HN : len (GRAYSCALE_CHARS g) <= 64) by (vm_compute; discriminate).
  assert (Hb : Forall grayscale_frame (frames demo_image))
    by (repeat constructor; unfold grayscale_frame; intros; lia).
  assert (Hfail : fst (ProcessGif g demo_image "gifs/cat.gif" 4 two 0 false used_world)
                  = Raise ZeroDivisionError) by (vm_compute; reflexivity).
  split; [exact Hres|]. split; [exact HN|]. split; [exact Hb|].
  split; [exact Hfail|].
  exact (continuous_fails_at_first_frame g demo_image "gifs/cat.gif" 4 two false
           used_world _ 4 4 one half 8 Hres ZeroDivisionError HN Hb Hfail).
Defined.

Lemma continuous_completes_after_first_frame_witness :
  let g := demo_globals false in
  GetFrameData (size demo_image) 2 one empty_world
    = (Ok demo_geometry, say empty_world (geometry_report 4 4 two two 2)) /\
  len (GRAYSCALE_CHARS g) <= 64 /\
  Forall grayscale_frame (frames demo_image) /\
  ProcessFrame (GRAYSCALE_CHARS g) (fun _ _ => 0) 4 4 two two 2 2 false
    = Ok [ [64; 64]; [64; 64] ]%N /\
  exists asciiImgs,
    all_render g demo_image 2 false demo_geometry ([ [64; 64]; [64; 64] ]%N :: asciiImgs) /\
    len ([ [64; 64]; [64; 64] ]%N :: asciiImgs) = n_frames demo_image /\
    ProcessGif g demo_image "gifs/cat.gif" 2 one 0 false empty_world
    = (Ok tt, played_all g (video_name "gifs/cat.gif") (n_frames demo_image)
                (say empty_world (geometry_report 4 4 two two 2))
                ([ [64; 64]; [64; 64] ]%N :: asciiImgs)).
Proof.
  intro g.
  assert (HN : len (GRAYSCALE_CHARS g) <= 64) by (vm_compute; discriminate).
  assert (Hb : Forall grayscale_frame (frames demo_image))
    by (repeat constructor; unfold grayscale_frame; intros; lia).
  assert (Hf : ProcessFrame (GRAYSCALE_CHARS g) (fun _ _ => 0) 4 4 two two 2 2 false
               = Ok [ [64; 64]; [64; 64] ]%N) by (vm_compute; reflexivity).
  split; [apply demo_resolved|]. split; [exact HN|]. split; [exact Hb|].
  split; [exact Hf|].
  exact (continuous_completes_after_first_frame g demo_image "gifs/cat.gif" 2 one
           false empty_world _ 4 4 two two 2 (demo_resolved empty_world)
           (fun _ _ => 0) [fun _ _ => 255] _ HN Hb eq_refl Hf).
Defined.

Lemma single_frame_live_witness :
  let g := demo_globals false in
  GetFrameData (size demo_image) 2 one empty_world
    = (Ok demo_geometry, say empty_world (geometry_report 4 4 two two 2)) /\
  SAVE_ENABLED g = false /\
  1 <= 2 <= n_frames demo_image /\
  nth_error (frames demo_image) (Z.to_nat (2 - 1)) = Some (fun _ _ => 255) /\
  ProcessFrame (GRAYSCALE_CHARS g) (fun _ _ => 255) 4 4 two two 2 2 false
    = Ok [ [32; 32]; [32; 32] ]%N /\
  ProcessGif g demo_image "gifs/cat.gif" 2 one 2 false empty_world
    = (Ok tt, say empty_world (geometry_report 4 4 two two 2
                               ++ [Print (str_of_string "  ");
                                   Print (str_of_string "  ")])).
Proof.
  intro g.
  assert (Hk : 1 <= 2 <= n_frames demo_image) by (vm_compute; split; discriminate).
  assert (Hf : ProcessFrame (GRAYSCALE_CHARS g) (fun _ _ => 255) 4 4 two two 2 2 false
               = Ok [ [32; 32]; [32; 32] ]%N) by (vm_compute; reflexivity).
  split; [apply demo_resolved|]. split; [reflexivity|]. split; [exact Hk|].
  split; [reflexivity|]. split; [exact Hf|].
  exact (single_frame_live g demo_image "gifs/cat.gif" 2 one false empty_world _
           4 4 two two 2 (demo_resolved empty_world) 2 (fun _ _ => 255) _
           eq_refl Hk eq_refl Hf).
Defined.

Lemma continuous_live_trace_witness :
  let g := demo_globals false in
  GetFrameData (size demo_image) 2 one empty_world
    = (Ok demo_geometry, say empty_world (geometry_report 4 4 two two 2)) /\
  SAVE_ENABLED g = false /\
  all_render g demo_image 2 false demo_geometry demo_rendered /\
  ProcessGif g demo_image "gifs/cat.gif" 2 one 0 false empty_world
    = (Ok tt,
       say empty_world
         (geometry_report 4 4 two two 2
          ++ [ frame_number_line 0;
               Print (str_of_string "@@"); Print (str_of_string "@@");
               Write ([27%N] ++ str_of_string "[3A");
               frame_number_line 1;
               Print (str_of_string "  "); Print (str_of_string "  ") ])).
Proof.
  intro g.
  assert (Hall : all_render g demo_image 2 false demo_geometry demo_rendered)
    by (apply demo_all_render; reflexivity).
  split; [apply demo_resolved|]. split; [reflexivity|]. split; [exact Hall|].
  exact (continuous_live_trace g demo_image "gifs/cat.gif" 2 one false empty_world _
           4 4 two two 2 (demo_resolved empty_world) demo_rendered eq_refl Hall).
Defined.

Lemma continuous_save_terminal_witness :
  let g := demo_globals true in
  GetFrameData (size demo_image) 2 one used_world
    = (Ok demo_geometry, say used_world (geometry_report 4 4 two two 2)) /\
  SAVE_ENABLED g = true /\
  all_render g demo_image 2 false demo_geometry demo_rendered /\
  stdout (snd (ProcessGif g demo_image "gifs/cat.gif" 2 one 0 false used_world))
    = stdout used_world
      ++ geometry_report 4 4 two two 2
      ++ [frame_number_line 0; frame_number_line 1].
Proof.
  intro g.
  assert (Hall : all_render g demo_image 2 false demo_geometry demo_rendered)
    by (apply demo_all_render; reflexivity).
  split; [apply demo_resolved|]. split; [reflexivity|]. split; [exact Hall|].
  exact (continuous_save_terminal g demo_image "gifs/cat.gif" 2 one false used_world _
           4 4 two two 2 (demo_resolved used_world) demo_rendered eq_refl Hall).
Defined.

Lemma single_frame_reads_one_frame_witness :
  2 <> 0 /\
  size demo_image = size other_image /\
  n_frames demo_image = n_frames other_image /\
  nth_error (frames demo_image) (Z.to_nat (2 - 1))
    = nth_error (frames other_image) (Z.to_nat (2 - 1)) /\
  ProcessGif (demo_globals true) demo_image "gifs/cat.gif" 2 one 2 false used_world
  = ProcessGif (demo_globals true) other_image "gifs/cat.gif" 2 one 2 false used_world.
Proof.
  assert (Hnz : 2 <> 0) by discriminate.
  split; [exact Hnz|]. split; [reflexivity|]. split; [reflexivity|].
  split; [reflexivity|].
  exact (single_frame_reads_one_frame (demo_globals true) demo_image other_image
           "gifs/cat.gif" 2 one 2 false used_world Hnz eq_refl eq_refl eq_refl).
Defined.
